(** * httpsignatures: the header scanner and the digest facade

    A shallow embedding of [parser.go], the byte-level scanner for the
    [Authorization], [Signature] and [Digest] headers, and of the digest
    facade that calls it, with the properties the specification states
    about them.

    Go strings are byte strings: a header is a [string] (a sequence of 8-bit
    [ascii]), a [[]byte] buffer is a [list ascii], and [string(buf)] is
    [string_of_list_ascii].  The receiver [p *Parser] is mutated in place by
    every method; here each method takes the parser and returns the updated
    parser next to its Go result, so that what a call leaves behind in the
    parser can be followed into the next call.  The map [p.params] is a
    [gmap]; parsers are built by [NewParser] only, which allocates it. *)

From Stdlib Require Import String Ascii List ZArith NArith Lia Bool.
From stdpp Require Import gmap strings.
Import ListNotations.

Local Open Scope string_scope.
Local Open Scope list_scope.

(** ** Bytes and the ASCII constants of [parser.go] *)

Abbreviation byte := ascii.

Definition fromA : byte := "A"%char.
Definition toZ   : byte := "Z"%char.
Definition froma : byte := "a"%char.
Definition toz   : byte := "z"%char.
Definition equal : byte := "="%char.
Definition quote : byte := ascii_of_N 34.
Definition space : byte := " "%char.
Definition div   : byte := ","%char.
Definition from0 : byte := "0"%char.
Definition to9   : byte := "9"%char.
Definition min   : byte := "-"%char.

(** [a <= b] and [a == b] on bytes. *)
Definition ble (a b : byte) : bool := (N_of_ascii a <=? N_of_ascii b)%N.
Definition beq (a b : byte) : bool := Ascii.eqb a b.

(** The condition [(cur >= fromA && cur <= toZ) || (cur >= froma && cur <= toz)]
    that [parseKeyword], [parseKey] and [parseAlgorithm] share. *)
Definition isLetter (cur : byte) : bool :=
  (ble fromA cur && ble cur toZ) || (ble froma cur && ble cur toz).

(** The condition [cur >= from0 && cur <= to9]. *)
Definition isDigit (cur : byte) : bool := ble from0 cur && ble cur to9.

(** Go's [string(cur)] for a byte: the UTF-8 encoding of the code point
    [cur], one byte below 0x80 and two bytes from 0x80 on. *)
Definition string_of_byte (cur : byte) : string :=
  let n := N_of_ascii cur in
  if (n <? 128)%N then String cur EmptyString
  else String (ascii_of_N (192 + n / 64))
        (String (ascii_of_N (128 + n mod 64)) EmptyString).

(** The em dash of the "found ... — unsupported symbol" messages (UTF-8). *)
Definition emdash : string :=
  String (ascii_of_N 226) (String (ascii_of_N 128) (String (ascii_of_N 148) EmptyString)).

(** ** The standard-library functions the scanner calls *)

(** [strings.ToUpper] on its ASCII path: the key buffer only ever holds
    bytes of [A-Za-z0-9-], so no other path is taken. *)
Definition upper_byte (c : byte) : byte :=
  if ble froma c && ble c toz then ascii_of_N (N_of_ascii c - 32) else c.

Fixpoint ToUpper (s : string) : string :=
  match s with
  | EmptyString => EmptyString
  | String c s' => String (upper_byte c) (ToUpper s')
  end.

(** [strings.Fields]: the maximal runs of non-space bytes, for the ASCII
    white space of Go's [asciiSpace] table (tab, LF, VT, FF, CR, space).
    Go also splits at the multi-byte Unicode spaces of a string that is not
    ASCII; no property below depends on how [headers] is split. *)
Definition isAsciiSpace (c : byte) : bool :=
  let n := N_of_ascii c in
  ((9 <=? n) && (n <=? 13) || (n =? 32))%N.

Fixpoint fields_aux (cur : list byte) (bs : list byte) : list string :=
  match bs with
  | [] => match cur with [] => [] | _ => [string_of_list_ascii (rev cur)] end
  | b :: bs' =>
      if isAsciiSpace b then
        match cur with
        | [] => fields_aux [] bs'
        | _ => string_of_list_ascii (rev cur) :: fields_aux [] bs'
        end
      else fields_aux (b :: cur) bs'
  end.

Definition Fields (s : string) : list string :=
  fields_aux [] (list_ascii_of_string s).

(** [strconv.ParseInt(s, 10, 32)].  [*strconv.NumError] carries the failing
    function, the input and [ErrSyntax] or [ErrRange]. *)
Inductive strconvErr := ErrSyntax | ErrRange.

Record NumError := { Func : string; Num : string; NumErr : strconvErr }.

(** The digit loop of [ParseUint] for base 10 and [bitSize] 32: it stops at
    the first byte that is not a digit (syntax) or at the first digit that
    takes the value past [maxVal = 2^32 - 1] (range). *)
Fixpoint parseUintLoop (n : Z) (cs : list byte) : Z + strconvErr :=
  match cs with
  | [] => inl n
  | c :: cs' =>
      if isDigit c then
        let n1 := (n * 10 + Z.of_N (N_of_ascii c - 48))%Z in
        if (n1 >? 4294967295)%Z then inr ErrRange else parseUintLoop n1 cs'
      else inr ErrSyntax
  end.

Definition ParseUint32 (s : list byte) : Z + strconvErr :=
  match s with
  | [] => inr ErrSyntax
  | _ => parseUintLoop 0 s
  end.

(** [ParseInt(s, 10, 32)]: sign, unsigned value, then the cutoff [2^31].
    A range error of [ParseUint] leaves [un = 2^32 - 1], which is past the
    cutoff, so it is reported as a range error of [ParseInt] as well. *)
Definition ParseInt32 (s : string) : Z * option NumError :=
  let s0 := s in
  match list_ascii_of_string s with
  | [] => (0%Z, Some {| Func := "ParseInt"; Num := s0; NumErr := ErrSyntax |})
  | c :: rest =>
      let neg := beq c "-"%char in
      let digits := if beq c "+"%char || beq c "-"%char then rest else c :: rest in
      match ParseUint32 digits with
      | inr ErrSyntax =>
          (0%Z, Some {| Func := "ParseInt"; Num := s0; NumErr := ErrSyntax |})
      | inr ErrRange =>
          if neg
          then ((-2147483648)%Z, Some {| Func := "ParseInt"; Num := s0; NumErr := ErrRange |})
          else (2147483647%Z, Some {| Func := "ParseInt"; Num := s0; NumErr := ErrRange |})
      | inl un =>
          if negb neg && (un >=? 2147483648)%Z
          then (2147483647%Z, Some {| Func := "ParseInt"; Num := s0; NumErr := ErrRange |})
          else if neg && (un >? 2147483648)%Z
          then ((-2147483648)%Z, Some {| Func := "ParseInt"; Num := s0; NumErr := ErrRange |})
          else ((if neg then - un else un)%Z, None)
      end
  end.

(** [time.Time]: the zero value of the struct, or [time.Unix(sec, 0)]. *)
Inductive Time := TimeZero | Unix (sec : Z).

(** ** The data model of [parser.go] *)

Record ParsedHeader := {
  h_keyword : string;
  keyID     : string;
  signature : string;
  algorithm : string;
  created   : Time;
  expires   : Time;
  headers   : list string
}.

Record ParsedDigestHeader := { algo : string; digest : string }.

Record ParserError := { Message : string; Err : option NumError }.

(** The scanner state [p.flag].  The source keeps it as a string that is
    only ever assigned one of nine literals; [FUnset] is the zero value. *)
Inductive Flag :=
  | FUnset | FKeyword | FParam | FEqual | FQuote | FStringValue | FIntValue
  | FDiv | FAlgorithm | FStringRawValue.

Definition flag_name (f : Flag) : string :=
  match f with
  | FUnset => EmptyString | FKeyword => "keyword" | FParam => "param"
  | FEqual => "equal" | FQuote => "quote" | FStringValue => "stringValue"
  | FIntValue => "intValue" | FDiv => "div" | FAlgorithm => "algorithm"
  | FStringRawValue => "stringRawValue"
  end.

Record Parser := {
  parsedHeader       : ParsedHeader;
  parsedDigestHeader : ParsedDigestHeader;
  keyword            : list byte;
  key                : list byte;
  value              : list byte;
  flag               : Flag;
  params             : gmap string bool
}.

(** [p.params[k]]: a missing key reads as [false]. *)
Definition param_seen (m : gmap string bool) (k : string) : bool :=
  default false (m !! k).

Definition zeroParsedHeader : ParsedHeader :=
  {| h_keyword := EmptyString; keyID := EmptyString; signature := EmptyString; algorithm := EmptyString;
     created := TimeZero; expires := TimeZero; headers := [] |}.

Definition zeroParsedDigestHeader : ParsedDigestHeader :=
  {| algo := EmptyString; digest := EmptyString |}.

(** [NewParser]: every field zero, [params] an empty map. *)
Definition NewParser : Parser :=
  {| parsedHeader := zeroParsedHeader;
     parsedDigestHeader := zeroParsedDigestHeader;
     keyword := []; key := []; value := []; flag := FUnset; params := ∅ |}.

(** Field assignments [p.f = v]. *)
Definition set_flag (f : Flag) (p : Parser) : Parser :=
  {| parsedHeader := parsedHeader p; parsedDigestHeader := parsedDigestHeader p;
     keyword := keyword p; key := key p; value := value p; flag := f;
     params := params p |}.

Definition set_keyword (v : list byte) (p : Parser) : Parser :=
  {| parsedHeader := parsedHeader p; parsedDigestHeader := parsedDigestHeader p;
     keyword := v; key := key p; value := value p; flag := flag p;
     params := params p |}.

Definition set_key (v : list byte) (p : Parser) : Parser :=
  {| parsedHeader := parsedHeader p; parsedDigestHeader := parsedDigestHeader p;
     keyword := keyword p; key := v; value := value p; flag := flag p;
     params := params p |}.

Definition set_value (v : list byte) (p : Parser) : Parser :=
  {| parsedHeader := parsedHeader p; parsedDigestHeader := parsedDigestHeader p;
     keyword := keyword p; key := key p; value := v; flag := flag p;
     params := params p |}.

Definition set_params (m : gmap string bool) (p : Parser) : Parser :=
  {| parsedHeader := parsedHeader p; parsedDigestHeader := parsedDigestHeader p;
     keyword := keyword p; key := key p; value := value p; flag := flag p;
     params := m |}.

Definition set_parsedHeader (h : ParsedHeader) (p : Parser) : Parser :=
  {| parsedHeader := h; parsedDigestHeader := parsedDigestHeader p;
     keyword := keyword p; key := key p; value := value p; flag := flag p;
     params := params p |}.

Definition set_parsedDigestHeader (h : ParsedDigestHeader) (p : Parser) : Parser :=
  {| parsedHeader := parsedHeader p; parsedDigestHeader := h;
     keyword := keyword p; key := key p; value := value p; flag := flag p;
     params := params p |}.

Definition with_h_keyword (v : string) (h : ParsedHeader) : ParsedHeader :=
  {| h_keyword := v; keyID := keyID h; signature := signature h;
     algorithm := algorithm h; created := created h; expires := expires h;
     headers := headers h |}.

Definition with_keyID (v : string) (h : ParsedHeader) : ParsedHeader :=
  {| h_keyword := h_keyword h; keyID := v; signature := signature h;
     algorithm := algorithm h; created := created h; expires := expires h;
     headers := headers h |}.

Definition with_signature (v : string) (h : ParsedHeader) : ParsedHeader :=
  {| h_keyword := h_keyword h; keyID := keyID h; signature := v;
     algorithm := algorithm h; created := created h; expires := expires h;
     headers := headers h |}.

Definition with_algorithm (v : string) (h : ParsedHeader) : ParsedHeader :=
  {| h_keyword := h_keyword h; keyID := keyID h; signature := signature h;
     algorithm := v; created := created h; expires := expires h;
     headers := headers h |}.

Definition with_created (v : Time) (h : ParsedHeader) : ParsedHeader :=
  {| h_keyword := h_keyword h; keyID := keyID h; signature := signature h;
     algorithm := algorithm h; created := v; expires := expires h;
     headers := headers h |}.

Definition with_expires (v : Time) (h : ParsedHeader) : ParsedHeader :=
  {| h_keyword := h_keyword h; keyID := keyID h; signature := signature h;
     algorithm := algorithm h; created := created h; expires := v;
     headers := headers h |}.

Definition with_headers (v : list string) (h : ParsedHeader) : ParsedHeader :=
  {| h_keyword := h_keyword h; keyID := keyID h; signature := signature h;
     algorithm := algorithm h; created := created h; expires := expires h;
     headers := v |}.

(** A method of [*Parser] that returns [*ParserError]: the parser after the
    call and the error, [None] for [nil]. *)
Definition Step := (Parser * option ParserError)%type.

Definition ok (p : Parser) : Step := (p, None).
Definition fail (p : Parser) (msg : string) : Step :=
  (p, Some {| Message := msg; Err := None |}).

(** ** The scanner methods *)

(** [getValueType]: ["int"] for [created] and [expires], else ["string"]. *)
Definition getValueType (p : Parser) : string :=
  let k := string_of_list_ascii (key p) in
  if String.eqb k "created" || String.eqb k "expires" then "int" else "string".

(** The [if t == "string" ... else if t == "int" ...] of [parseKey] and
    [parseEqual]. *)
Definition enterValue (p : Parser) : Parser :=
  let t := getValueType p in
  if String.eqb t "string" then set_flag FQuote p
  else if String.eqb t "int" then set_flag FIntValue p
  else p.

Definition setKeyword (p : Parser) : Step :=
  if negb (String.eqb "Signature" (string_of_list_ascii (keyword p))) then
    fail p "invalid Authorization header, must start from Signature keyword"
  else ok (set_parsedHeader (with_h_keyword "Signature" (parsedHeader p)) p).

Definition intToTime (v : list byte) : Time * option NumError :=
  match ParseInt32 (string_of_list_ascii v) with
  | (_, Some err) => (Unix 0, Some err)
  | (sec, None) => (Unix sec, None)
  end.

Definition setKeyValue (p : Parser) : Step :=
  let k := string_of_list_ascii (key p) in
  if (length (value p) =? 0)%nat then
    fail p ("empty value for key '" ++ k ++ "'")
  else if param_seen (params p) k then
    fail p ("duplicate param '" ++ k ++ "'")
  else
    let p := set_params (<[k := true]> (params p)) p in
    let v := string_of_list_ascii (value p) in
    let done (p : Parser) : Step := ok (set_value [] (set_key [] p)) in
    if String.eqb k "keyId" then
      done (set_parsedHeader (with_keyID v (parsedHeader p)) p)
    else if String.eqb k "algorithm" then
      done (set_parsedHeader (with_algorithm v (parsedHeader p)) p)
    else if String.eqb k "headers" then
      done (set_parsedHeader (with_headers (Fields v) (parsedHeader p)) p)
    else if String.eqb k "signature" then
      done (set_parsedHeader (with_signature v (parsedHeader p)) p)
    else if String.eqb k "created" then
      let '(t, err) := intToTime (value p) in
      let p := set_parsedHeader (with_created t (parsedHeader p)) p in
      match err with
      | Some e => (p, Some {| Message := "wrong 'created' param value"; Err := Some e |})
      | None => done p
      end
    else if String.eqb k "expires" then
      let '(t, err) := intToTime (value p) in
      let p := set_parsedHeader (with_expires t (parsedHeader p)) p in
      match err with
      | Some e => (p, Some {| Message := "wrong 'expires' param value"; Err := Some e |})
      | None => done p
      end
    else done p.

Definition setDigest (p : Parser) : Step :=
  if (length (value p) =? 0)%nat then fail p "empty digest value"
  else
    let d := {| algo := ToUpper (string_of_list_ascii (key p));
                digest := string_of_list_ascii (value p) |} in
    ok (set_value [] (set_key [] (set_parsedDigestHeader d p))).

Definition parseKeyword (p : Parser) (cur : byte) : Step :=
  if isLetter cur then ok (set_keyword (keyword p ++ [cur]) p)
  else if beq cur space && (0 <? length (keyword p))%nat then
    setKeyword (set_flag FParam p)
  else ok p.

Definition parseKey (p : Parser) (cur : byte) : Step :=
  if isLetter cur then ok (set_key (key p ++ [cur]) p)
  else if beq cur equal then ok (enterValue p)
  else if beq cur space && (0 <? length (key p))%nat then ok (set_flag FEqual p)
  else if negb (beq cur space) then
    fail p ("found '" ++ string_of_byte cur ++ "' " ++ emdash ++ " unsupported symbol in key")
  else ok p.

Definition parseAlgorithm (p : Parser) (cur : byte) : Step :=
  if isLetter cur || isDigit cur || beq cur min then ok (set_key (key p ++ [cur]) p)
  else if beq cur equal then ok (set_flag FStringRawValue p)
  else
    fail p ("found '" ++ string_of_byte cur ++ "' " ++ emdash ++ " unsupported symbol in algorithm").

Definition parseEqual (p : Parser) (cur : byte) : Step :=
  if beq cur equal then ok (enterValue p)
  else if beq cur space then ok p
  else
    fail p ("found '" ++ string_of_byte cur ++ "' " ++ emdash
            ++ " unsupported symbol, expected '=' or space symbol").

Definition parseQuote (p : Parser) (cur : byte) : Step :=
  if beq cur quote then ok (set_flag FStringValue p)
  else if beq cur space then ok p
  else
    fail p ("found '" ++ string_of_byte cur ++ "' " ++ emdash
            ++ " unsupported symbol, expected '" ++ string_of_byte quote ++ "' or space symbol").

Definition parseStringValue (p : Parser) (cur : byte) : Step :=
  if negb (beq cur quote) then ok (set_value (value p ++ [cur]) p)
  else if beq cur quote then setKeyValue (set_flag FDiv p)
  else ok p.

Definition parseIntValue (p : Parser) (cur : byte) : Step :=
  if isDigit cur then ok (set_value (value p ++ [cur]) p)
  else if beq cur space then
    if (length (value p) =? 0)%nat then ok p
    else setKeyValue (set_flag FDiv p)
  else if beq cur div then setKeyValue (set_flag FParam p)
  else ok p.

Definition parseStringRawValue (p : Parser) (cur : byte) : Step :=
  ok (set_value (value p ++ [cur]) p).

Definition parseDiv (p : Parser) (cur : byte) : Step :=
  if beq cur div then ok (set_flag FParam p)
  else if beq cur space then ok p
  else
    fail p ("found '" ++ string_of_byte cur ++ "' " ++ emdash
            ++ " unsupported symbol, expected ',' or space symbol").

Definition handleSignatureEOF (p : Parser) : Step :=
  match flag p with
  | FKeyword => setKeyword p
  | FParam =>
      if (length (key p) =? 0)%nat
      then fail p "unexpected end of header, expected parameter"
      else fail p "unexpected end of header, expected '=' symbol and field value"
  | FEqual => fail p "unexpected end of header, expected field value"
  | FQuote => fail p ("unexpected end of header, expected '" ++ string_of_byte quote ++ "' symbol and field value")
  | FStringValue => fail p ("unexpected end of header, expected '" ++ string_of_byte quote ++ "' symbol")
  | FIntValue => setKeyValue p
  | _ => ok p
  end.

Definition handleDigestEOF (p : Parser) : Step :=
  match flag p with
  | FAlgorithm => fail p "unexpected end of header, expected digest value"
  | FStringRawValue => setDigest p
  | _ => ok p
  end.

(** The [switch p.flag] in the loop of [parseSignature]. *)
Definition signatureByte (p : Parser) (cur : byte) : Step :=
  match flag p with
  | FKeyword => parseKeyword p cur
  | FParam => parseKey p cur
  | FEqual => parseEqual p cur
  | FQuote => parseQuote p cur
  | FStringValue => parseStringValue p cur
  | FIntValue => parseIntValue p cur
  | FDiv => parseDiv p cur
  | _ => fail p "unexpected parser stage"
  end.

(** The [switch p.flag] in the loop of [parseDigest]. *)
Definition digestByte (p : Parser) (cur : byte) : Step :=
  match flag p with
  | FAlgorithm => parseAlgorithm p cur
  | FStringRawValue => parseStringRawValue p cur
  | _ => fail p "unexpected parser stage"
  end.

(** The [for] loop of [parseSignature]: one byte per turn, the first error
    leaves the loop, and the end of the input runs [handleSignatureEOF]. *)
Fixpoint signatureLoop (p : Parser) (bs : list byte) : Step :=
  match bs with
  | [] => handleSignatureEOF p
  | cur :: bs' =>
      match signatureByte p cur with
      | (p', Some e) => (p', Some e)
      | (p', None) => signatureLoop p' bs'
      end
  end.

Fixpoint digestLoop (p : Parser) (bs : list byte) : Step :=
  match bs with
  | [] => handleDigestEOF p
  | cur :: bs' =>
      match digestByte p cur with
      | (p', Some e) => (p', Some e)
      | (p', None) => digestLoop p' bs'
      end
  end.

(** A parse entry point returns the parser it leaves behind and the Go
    result pair (value, error). *)
Definition parseSignature (p : Parser) (header : string)
  : Parser * (ParsedHeader * option ParserError) :=
  if (String.length header =? 0)%nat then
    (p, (zeroParsedHeader, Some {| Message := "empty header"; Err := None |}))
  else
    match signatureLoop p (list_ascii_of_string header) with
    | (p', Some e) => (p', (zeroParsedHeader, Some e))
    | (p', None) =>
        let p'' :=
          if (length (headers (parsedHeader p')) =? 0)%nat
          then set_parsedHeader
                 (with_headers (headers (parsedHeader p') ++ ["(created)"]) (parsedHeader p')) p'
          else p' in
        (p'', (parsedHeader p'', None))
    end.

Definition parseDigest (p : Parser) (header : string)
  : Parser * (ParsedDigestHeader * option ParserError) :=
  if (String.length header =? 0)%nat then
    (p, (zeroParsedDigestHeader, Some {| Message := "empty digest header"; Err := None |}))
  else
    match digestLoop p (list_ascii_of_string header) with
    | (p', Some e) => (p', (zeroParsedDigestHeader, Some e))
    | (p', None) => (p', (parsedDigestHeader p', None))
    end.

Definition ParseAuthorizationHeader (p : Parser) (header : string) :=
  parseSignature (set_flag FKeyword p) header.

Definition ParseSignatureHeader (p : Parser) (header : string) :=
  parseSignature (set_flag FParam p) header.

Definition ParseDigestHeader (p : Parser) (header : string) :=
  parseDigest (set_flag FAlgorithm p) header.

(** [VerifySignatureFields]: [keyId] and [signature] are required. *)
Definition VerifySignatureFields (p : Parser) : option ParserError :=
  if String.eqb (keyID (parsedHeader p)) EmptyString then
    Some {| Message := "keyId is not set in header"; Err := None |}
  else if String.eqb (signature (parsedHeader p)) EmptyString then
    Some {| Message := "signature is not set in header"; Err := None |}
  else None.

(** * The digest facade *)

(** ** Base64 *)

(** [encoding/base64]'s [StdEncoding]: the alphabet of RFC 4648 with ['=']
    padding.  [EncodeToString] turns three bytes into four sextets;
    [DecodeString] drops CR and LF, reads quanta of four characters and
    accepts padding in the last quantum only. *)
Definition encodeStd : list byte :=
  list_ascii_of_string "ABCDEFGHIJKLMNOPQRSTUVWXYZabcdefghijklmnopqrstuvwxyz0123456789+/".

Definition padChar : byte := "="%char.

Definition encodeSextet (n : N) : byte := nth (N.to_nat n) encodeStd padChar.

Fixpoint find_index (c : byte) (l : list byte) (i : N) : option N :=
  match l with
  | [] => None
  | x :: l' => if beq c x then Some i else find_index c l' (i + 1)%N
  end.

Definition decodeSextet (c : byte) : option N := find_index c encodeStd 0.

Fixpoint encodeBytes (src : list byte) : list byte :=
  match src with
  | [] => []
  | [a] =>
      let x := N_of_ascii a in
      [encodeSextet (x / 4); encodeSextet (x mod 4 * 16); padChar; padChar]
  | [a; b] =>
      let x := N_of_ascii a in let y := N_of_ascii b in
      [encodeSextet (x / 4); encodeSextet (x mod 4 * 16 + y / 16);
       encodeSextet (y mod 16 * 4); padChar]
  | a :: b :: c :: rest =>
      let x := N_of_ascii a in let y := N_of_ascii b in let z := N_of_ascii c in
      encodeSextet (x / 4) :: encodeSextet (x mod 4 * 16 + y / 16)
        :: encodeSextet (y mod 16 * 4 + z / 64) :: encodeSextet (z mod 64)
        :: encodeBytes rest
  end%N.

Definition EncodeToString (src : list byte) : string :=
  string_of_list_ascii (encodeBytes src).

Fixpoint decodeQuanta (cs : list byte) : option (list byte) :=
  match cs with
  | [] => Some []
  | c1 :: c2 :: c3 :: c4 :: rest =>
      match decodeSextet c1, decodeSextet c2 with
      | Some i1, Some i2 =>
          let b1 := ascii_of_N (i1 * 4 + i2 / 16) in
          if beq c3 padChar then
            if beq c4 padChar then
              match rest with [] => Some [b1] | _ => None end
            else None
          else
            match decodeSextet c3 with
            | Some i3 =>
                let b2 := ascii_of_N (i2 mod 16 * 16 + i3 / 4) in
                if beq c4 padChar then
                  match rest with [] => Some [b1; b2] | _ => None end
                else
                  match decodeSextet c4 with
                  | Some i4 =>
                      let b3 := ascii_of_N (i3 mod 4 * 64 + i4) in
                      option_map (fun t => b1 :: b2 :: b3 :: t) (decodeQuanta rest)
                  | None => None
                  end
            | None => None
            end
      | _, _ => None
      end
  | _ => None
  end%N.

Definition isNewline (c : byte) : bool :=
  beq c (ascii_of_N 10) || beq c (ascii_of_N 13).

Definition DecodeString (s : string) : option (list byte) :=
  decodeQuanta (List.filter (fun c => negb (isNewline c)) (list_ascii_of_string s)).

(** ** The facade, from the specification *)

(** Modelled from the spec: the error values of the digest facade, whose
    declarations ([ErrDigest], [ErrCrypto]) are in a file not given here.
    An [ErrDigest] has a message and may wrap a cause. *)
Inductive DigestCause :=
  | CauseCrypto (msg : string)
  | CauseDecode.

Inductive DigestError :=
  | ErrDigest (msg : string) (cause : option DigestCause)
  | ErrParser (e : ParserError).

(** The interface [DigestHashAlgorithm] that [Sha256] implements:
    [Algorithm], [Create] and [Verify]. *)
Record DigestHashAlgorithm := {
  Algorithm  : string;
  hashCreate : list byte -> list byte + string;
  hashVerify : list byte -> list byte -> option string
}.

(** Modelled from the spec: [digestHashAlgorithmCreate] and
    [digestHashAlgorithmVerify], which [Sha256.Create] and [Sha256.Verify]
    call with [sha256.New].  Create hashes the data; verify recomputes the
    hash over the data and compares it with the digest given, a mismatch
    being the error "wrong hash". *)
Definition digestHashAlgorithmCreate (sum : list byte -> list byte) (data : list byte)
  : list byte + string := inl (sum data).

Definition digestHashAlgorithmVerify (sum : list byte -> list byte)
    (data digest : list byte) : option string :=
  if decide (sum data = digest) then None else Some "wrong hash".

(** Modelled from the spec: the request the facade reads, reduced to its
    [Digest] header and its body. *)
Record Request := { digestHeader : string; body : list byte }.

(** Modelled from the spec: the facade [Digest] with its registry [alg] and
    default name [defaultAlg] (the fields the tests read). *)
Record Digest := {
  alg        : gmap string DigestHashAlgorithm;
  defaultAlg : string
}.

Definition unsupportedError (name : string) : DigestError :=
  ErrDigest ("unsupported digest hash algorithm '" ++ name ++ "'") None.

(** Modelled from the spec: [Digest.Create], "NAME=base64(hash)", failing
    for a name that is not registered and for a hash that fails. *)
Definition Create (d : Digest) (name : string) (r : Request) : string + DigestError :=
  match alg d !! name with
  | None => inr (unsupportedError name)
  | Some h =>
      match hashCreate h (body r) with
      | inr e =>
          inr (ErrDigest ("error creating digest hash '" ++ name ++ "'")%string
                 (Some (CauseCrypto e)))
      | inl sum => inl (name ++ "=" ++ EncodeToString sum)%string
      end
  end.

(** Modelled from the spec: [Digest.Verify].  An empty body is refused
    before the header is looked at; then the header is parsed (by
    [ParseDigestHeader] on a parser of its own), the algorithm looked up,
    the digest decoded from base64 and compared with the hash of the body. *)
Definition Verify (d : Digest) (r : Request) : option DigestError :=
  if (length (body r) =? 0)%nat then Some (ErrDigest "empty body" None)
  else
    match snd (ParseDigestHeader NewParser (digestHeader r)) with
    | (_, Some e) => Some (ErrParser e)
    | (ph, None) =>
        match alg d !! algo ph with
        | None => Some (unsupportedError (algo ph))
        | Some h =>
            match DecodeString (digest ph) with
            | None => Some (ErrDigest "error decode digest from base64" (Some CauseDecode))
            | Some sum =>
                match hashVerify h (body r) sum with
                | Some e => Some (ErrDigest "wrong digest" (Some (CauseCrypto e)))
                | None => None
                end
            end
        end
    end.

Section Hashes.
(** The hash functions of [crypto/md5], [crypto/sha256] and
    [crypto/sha512]. *)
Variables md5_sum sha256_sum sha512_sum : list byte -> list byte.

Definition hashAlgorithm (name : string) (sum : list byte -> list byte)
  : DigestHashAlgorithm :=
  {| Algorithm := name;
     hashCreate := digestHashAlgorithmCreate sum;
     hashVerify := digestHashAlgorithmVerify sum |}.

Definition Md5 : DigestHashAlgorithm := hashAlgorithm "MD5" md5_sum.
Definition Sha256 : DigestHashAlgorithm := hashAlgorithm "SHA-256" sha256_sum.
Definition Sha512 : DigestHashAlgorithm := hashAlgorithm "SHA-512" sha512_sum.

(** Modelled from the spec: [NewDigest], the registry of MD5, SHA-256 and
    SHA-512 under their names and the default name [SHA-256]. *)
Definition NewDigest : Digest :=
  {| alg := <["MD5" := Md5]> (<["SHA-256" := Sha256]> (<["SHA-512" := Sha512]> ∅));
     defaultAlg := "SHA-256" |}.
End Hashes.

(** * The vocabulary of the properties *)

(** ** States of the scan *)

(** The bytes of the header without the end-of-input step: the state the
    loop of [parseSignature] is in when [r.Read] reports [io.EOF]. *)
Fixpoint signatureBytes (p : Parser) (bs : list byte) : Step :=
  match bs with
  | [] => ok p
  | cur :: bs' =>
      match signatureByte p cur with
      | (p', Some e) => (p', Some e)
      | (p', None) => signatureBytes p' bs'
      end
  end.

(** The states of the parameter grammar, the ones [parseSignature] has a
    [case] for. *)
Definition sigFlag (f : Flag) : bool :=
  match f with
  | FKeyword | FParam | FEqual | FQuote | FStringValue | FIntValue | FDiv => true
  | _ => false
  end.

(** The five states between two parameters' completions. *)
Definition midFlag (f : Flag) : bool :=
  match f with
  | FParam | FEqual | FQuote | FStringValue | FIntValue => true
  | _ => false
  end.

(** A quiet step from [p] to [p']: the visited set and the stored
    parameters are untouched (the state moved, or a buffer grew). *)
Definition quiet (p p' : Parser) : Prop :=
  params p' = params p /\
  keyID (parsedHeader p') = keyID (parsedHeader p) /\
  signature (parsedHeader p') = signature (parsedHeader p) /\
  algorithm (parsedHeader p') = algorithm (parsedHeader p) /\
  created (parsedHeader p') = created (parsedHeader p) /\
  expires (parsedHeader p') = expires (parsedHeader p) /\
  headers (parsedHeader p') = headers (parsedHeader p).

(** The byte [c] completes a value in state [p]: it is the closing quote of
    a string value, or the space or comma that ends an integer. *)
Definition completes (p : Parser) (c : byte) : bool :=
  match flag p with
  | FStringValue => beq c quote
  | FIntValue => beq c space || beq c div
  | _ => false
  end.

(** What may follow an integer value: the end of the input, a space or a
    comma. *)
Definition endsInt (tail : list byte) : bool :=
  match tail with
  | [] => true
  | c :: _ => beq c space || beq c div
  end.

(** The states in which the end of the input is accepted. *)
Definition eofClean (p : Parser) : Prop :=
  flag p = FDiv \/
  (flag p = FIntValue /\ snd (setKeyValue p) = None) \/
  (flag p = FKeyword /\ string_of_list_ascii (keyword p) = "Signature").

(** As long as no [headers] parameter has completed, the stored header
    list is empty, or it is the default an earlier parse put there. *)
Definition headersUnset (p : Parser) : Prop :=
  param_seen (params p) "headers" = false ->
  headers (parsedHeader p) = [] \/ headers (parsedHeader p) = ["(created)"].

(** Two parsers that agree on what the byte handlers of the states past the
    keyword read: the state and the key and value buffers. *)
Definition sameScan (a b : Parser) : Prop :=
  flag a = flag b /\ key a = key b /\ value a = value b.

(** Past the keyword, the buffers are empty whenever the scanner waits for
    a comma. *)
Definition restingBuffers (p : Parser) : Prop :=
  match flag p with
  | FDiv => key p = [] /\ value p = []
  | FParam | FEqual | FQuote | FStringValue | FIntValue => True
  | _ => False
  end.

(** A byte of a quoted value: any byte but the quote. *)
Definition notQuote (c : byte) : bool := negb (beq c quote).

(** The bytes of the parameter [k="v"]. *)
Definition stringParam (k v : list byte) : list byte :=
  k ++ equal :: quote :: v ++ [quote].

(** The state in which the closing quote of [k="v"] is read. *)
Definition atClosingQuote (k v : list byte) (p : Parser) : Parser :=
  set_value v (set_flag FStringValue (set_key k p)).

(** The bytes [parseAlgorithm] appends to the name. *)
Definition isAlgorithmByte (c : byte) : bool :=
  isLetter c || isDigit c || beq c min.

(** ** Error values *)

Definition mkError (msg : string) : ParserError := {| Message := msg; Err := None |}.

Definition duplicateError (k : string) : ParserError :=
  mkError ("duplicate param '" ++ k ++ "'").

Definition emptyDigestError : ParserError := mkError "empty digest value".

(** The [*strconv.NumError] of a value out of range. *)
Definition rangeError (s : string) : NumError :=
  {| Func := "ParseInt"; Num := s; NumErr := ErrRange |}.

Definition wrongValueError (k : string) (v : list byte) : ParserError :=
  {| Message := "wrong '" ++ k ++ "' param value";
     Err := Some (rangeError (string_of_list_ascii v)) |}.

(** ** Numbers *)

Definition digitVal (c : byte) : Z := Z.of_N (N_of_ascii c - 48).

(** The number a string of decimal digits denotes. *)
Definition decimalFrom (n : Z) (v : list byte) : Z :=
  fold_left (fun n c => (n * 10 + digitVal c)%Z) v n.

Definition decimal (v : list byte) : Z := decimalFrom 0 v.

Ltac n_arith := zify; Z.to_euclidean_division_equations; lia.

(** The three facts about a sextet that the base64 round trip needs. *)
Definition sextetOk (n : N) : bool :=
  match decodeSextet (encodeSextet n) with
  | Some m => (m =? n)%N
  | None => false
  end
  && negb (beq (encodeSextet n) padChar)
  && negb (isNewline (encodeSextet n)).

(** ** Example inputs *)

(** A double quote as a one-byte string, for writing example headers. *)
Definition dq : string := String quote EmptyString.

Definition example_keyId : string := "keyId=" ++ dq ++ "Test" ++ dq.

Definition example_trailing_comma : string := example_keyId ++ ",".

Definition example_broken_keyword : string :=
  "Sig-nature keyId=" ++ dq ++ "Test" ++ dq ++ ",signature=" ++ dq ++ "c2ln" ++ dq.

Definition example_broken_created : string := "created=1x2".

Definition example_duplicate_prefix : list byte :=
  list_ascii_of_string (example_keyId ++ ",keyId=" ++ dq ++ "Other").

Definition example_created_prefix : list byte := list_ascii_of_string "created=".

Definition example_too_large : list byte := list_ascii_of_string "2147483648".

(** A stand-in of the right size for a hash function, to run the facade. *)
Definition zeroSum (n : nat) (data : list byte) : list byte := repeat zero n.

(** ** Parameters as pairs *)

(** What [setKeyValue] stores for a parameter with a quoted value: one of
    the four fields, or nothing for a name it does not know. *)
Definition storeParam (k v : string) (h : ParsedHeader) : ParsedHeader :=
  if String.eqb k "keyId" then with_keyID v h
  else if String.eqb k "algorithm" then with_algorithm v h
  else if String.eqb k "headers" then with_headers (Fields v) h
  else if String.eqb k "signature" then with_signature v h
  else h.

(** The parser after [setKeyValue] has stored the buffers of [p] as a
    parameter with a quoted value. *)
Definition completed (p : Parser) : Parser :=
  let k := string_of_list_ascii (key p) in
  set_value []
    (set_key []
       (set_parsedHeader
          (storeParam k (string_of_list_ascii (value p)) (parsedHeader p))
          (set_params (<[k := true]> (params p)) p))).

(** The names whose value is an integer. *)
Definition isIntKey (k : list byte) : bool :=
  String.eqb (string_of_list_ascii k) "created"
  || String.eqb (string_of_list_ascii k) "expires".

(** A parameter [(k, v)] written [k="v"] that the grammar accepts: a name of
    letters that takes a quoted value, and a value with a byte in it and no
    quote. *)
Definition wellFormed (kv : list byte * list byte) : bool :=
  forallb isLetter (fst kv) && negb (isIntKey (fst kv))
  && forallb notQuote (snd kv) && negb (length (snd kv) =? 0)%nat.

(** The parameters [k="v"] joined by commas. *)
Fixpoint renderParams (l : list (list byte * list byte)) : list byte :=
  match l with
  | [] => []
  | kv :: l' =>
      match l' with
      | [] => stringParam (fst kv) (snd kv)
      | _ => stringParam (fst kv) (snd kv) ++ div :: renderParams l'
      end
  end.

(** The fields after the parameters of [l] are stored, first to last. *)
Definition storeAll (l : list (list byte * list byte)) (h : ParsedHeader) : ParsedHeader :=
  fold_left
    (fun h kv => storeParam (string_of_list_ascii (fst kv)) (string_of_list_ascii (snd kv)) h)
    l h.

(** The default of [parseSignature] for an empty header list. *)
Definition withDefaultHeaders (h : ParsedHeader) : ParsedHeader :=
  if (length (headers h) =? 0)%nat
  then with_headers (headers h ++ ["(created)"]) h
  else h.

(** The four names [setKeyValue] stores a quoted value for. *)
Definition isStoredKey (k : list byte) : bool :=
  let s := string_of_list_ascii k in
  String.eqb s "keyId" || String.eqb s "algorithm"
  || String.eqb s "headers" || String.eqb s "signature".

Definition example_params : list (list byte * list byte) :=
  [(list_ascii_of_string "keyId", list_ascii_of_string "Test");
   (list_ascii_of_string "algorithm", list_ascii_of_string "rsa-sha256");
   (list_ascii_of_string "nonce", list_ascii_of_string "42");
   (list_ascii_of_string "signature", list_ascii_of_string "c2ln")].

Definition example_unknown_params : list (list byte * list byte) :=
  [(list_ascii_of_string "nonce", list_ascii_of_string "42");
   (list_ascii_of_string "realm", list_ascii_of_string "api")].

(** The error of a byte that a state does not take. *)
Definition foundError (c : byte) (what : string) : ParserError :=
  mkError ("found '" ++ string_of_byte c ++ "' " ++ emdash ++ " " ++ what).

Definition emptyValueError (k : string) : ParserError :=
  mkError ("empty value for key '" ++ k ++ "'").

Definition isSpace (c : byte) : bool := beq c space.

Definition example_created_value : list byte := list_ascii_of_string "1402170695".

(** The parameter [k="v"] with runs of spaces before the name, around the
    [=] and after the closing quote. *)
Definition spacedParam (sp0 k sp1 sp2 v sp3 : list byte) : list byte :=
  sp0 ++ k ++ sp1 ++ equal :: sp2 ++ quote :: v ++ quote :: sp3.

(** The visited set tells which of the two required fields are set. *)
Definition requiredSeen (p : Parser) : Prop :=
  (param_seen (params p) "keyId" = true <-> keyID (parsedHeader p) <> EmptyString) /\
  (param_seen (params p) "signature" = true <-> signature (parsedHeader p) <> EmptyString).

(** The parser after the keyword [Signature] and the space that ends it. *)
Definition afterKeyword (p : Parser) : Parser :=
  set_parsedHeader (with_h_keyword "Signature" (parsedHeader p))
    (set_keyword (list_ascii_of_string "Signature") p).

Definition example_spaced : list byte :=
  spacedParam [space] (list_ascii_of_string "keyId") [space] [space; space]
    (list_ascii_of_string "Test") [space].

(** Past the keyword state, with the keyword [h0] stored. *)
Definition keywordSet (h0 : string) (p : Parser) : Prop :=
  flag p <> FKeyword /\ h_keyword (parsedHeader p) = h0.

(** The two states of the digest grammar. *)
Definition digFlag (f : Flag) : bool :=
  match f with
  | FAlgorithm | FStringRawValue => true
  | _ => false
  end.

Definition example_rest_of_key : string := "Id=" ++ dq ++ "Test" ++ dq.

(** ** The list of headers *)

(** A byte of a name in the [headers] value: an ASCII byte that is neither
    white space nor the quote. *)
Definition isWordByte (c : byte) : bool :=
  negb (isAsciiSpace c) && notQuote c && (N_of_ascii c <? 128)%N.

Definition isWord (w : list byte) : bool :=
  forallb isWordByte w && negb (length w =? 0)%nat.

(** The words joined by single spaces. *)
Fixpoint joinWords (ws : list (list byte)) : list byte :=
  match ws with
  | [] => []
  | w :: ws' =>
      match ws' with
      | [] => w
      | _ => w ++ space :: joinWords ws'
      end
  end.

Definition headersKey : list byte := list_ascii_of_string "headers".

Definition example_words : list (list byte) :=
  [list_ascii_of_string "(request-target)"; list_ascii_of_string "date";
   list_ascii_of_string "digest"].

(** * Properties *)

(** ** Field lemmas and the effect of [setKeyValue] *)

Lemma param_seen_insert (m : gmap string bool) (k k' : string) :
  param_seen (<[k := true]> m) k' = if String.eqb k k' then true else param_seen m k'.
Proof.
  unfold param_seen. destruct (String.eqb_spec k k') as [->|Hne].
  - now rewrite lookup_insert_eq.
  - now rewrite lookup_insert_ne.
Qed.

Lemma length_zero_nil {A} (l : list A) : (length l =? 0)%nat = true <-> l = [].
Proof. destruct l; simpl; split; intros; congruence. Qed.

(** What a successful [setKeyValue] did. *)
Lemma setKeyValue_ok (p p' : Parser) :
  setKeyValue p = (p', None) ->
  value p <> [] /\
  param_seen (params p) (string_of_list_ascii (key p)) = false /\
  params p' = <[string_of_list_ascii (key p) := true]> (params p) /\
  key p' = [] /\ value p' = [] /\ flag p' = flag p /\ keyword p' = keyword p /\
  parsedDigestHeader p' = parsedDigestHeader p /\
  (string_of_list_ascii (key p) <> "headers" ->
   headers (parsedHeader p') = headers (parsedHeader p)).
Proof.
  unfold setKeyValue. intros H.
  destruct (length (value p) =? 0)%nat eqn:Hlen; [discriminate|].
  assert (Hv : value p <> []).
  { intros E. rewrite E in Hlen. discriminate. }
  destruct (param_seen (params p) _) eqn:Hseen; [discriminate|].
  simpl in H.
  repeat match type of H with
         | context [String.eqb ?a ?b] => destruct (String.eqb_spec a b)
         | context [intToTime ?v] => destruct (intToTime v) as [tm [nerr|]]
         end;
    try discriminate; inversion H; subst; simpl; repeat split; auto; congruence.
Qed.

(** What a failing [setKeyValue] leaves: the buffers, the state and every
    field of the result but [created]/[expires] are as before. *)
Lemma setKeyValue_err (p p' : Parser) (e : ParserError) :
  setKeyValue p = (p', Some e) ->
  key p' = key p /\ value p' = value p /\ flag p' = flag p /\
  keyID (parsedHeader p') = keyID (parsedHeader p) /\
  signature (parsedHeader p') = signature (parsedHeader p) /\
  algorithm (parsedHeader p') = algorithm (parsedHeader p) /\
  headers (parsedHeader p') = headers (parsedHeader p).
Proof.
  unfold setKeyValue, fail. intros H.
  destruct (length (value p) =? 0)%nat; [inversion H; subst; tauto|].
  destruct (param_seen (params p) _); [inversion H; subst; tauto|].
  simpl in H.
  repeat match type of H with
         | context [String.eqb ?a ?b] => destruct (String.eqb_spec a b)
         | context [intToTime ?v] => destruct (intToTime v) as [tm [nerr|]]
         end;
    try discriminate; inversion H; subst; simpl; tauto.
Qed.

(** ** The scanner's loop *)

Lemma signatureLoop_bytes (bs : list byte) (p : Parser) :
  signatureLoop p bs =
  match signatureBytes p bs with
  | (p', None) => handleSignatureEOF p'
  | (p', Some e) => (p', Some e)
  end.
Proof.
  revert p. induction bs as [|c bs IH]; intros p; simpl; [reflexivity|].
  destruct (signatureByte p c) as [p' [e|]]; [reflexivity|apply IH].
Qed.

Lemma signatureBytes_app (bs1 bs2 : list byte) (p p1 : Parser) :
  signatureBytes p bs1 = (p1, None) ->
  signatureBytes p (bs1 ++ bs2) = signatureBytes p1 bs2.
Proof.
  revert p. induction bs1 as [|c bs IH]; intros p; simpl.
  - intros [= ->]. reflexivity.
  - destruct (signatureByte p c) as [p' [e|]]; [discriminate|apply IH].
Qed.

(** An invariant of single steps is an invariant of the loop. *)
Lemma signatureBytes_inv (I : Parser -> Prop) :
  (forall p c p', I p -> signatureByte p c = (p', None) -> I p') ->
  forall bs p p', I p -> signatureBytes p bs = (p', None) -> I p'.
Proof.
  intros Hstep. induction bs as [|c bs IH]; intros p p' Hp; simpl.
  - intros [= <-]. exact Hp.
  - destruct (signatureByte p c) as [p1 [e|]] eqn:Hc; [discriminate|].
    apply IH. eapply Hstep; eauto.
Qed.

Lemma quiet_refl (p : Parser) : quiet p p.
Proof. unfold quiet. tauto. Qed.

Lemma enterValue_cases (p : Parser) :
  enterValue p = set_flag FQuote p \/ enterValue p = set_flag FIntValue p.
Proof.
  unfold enterValue, getValueType.
  destruct (_ || _); simpl; auto.
Qed.

Lemma signatureByte_cases (p p' : Parser) (c : byte) (r : option ParserError) :
  signatureByte p c = (p', r) ->
  quiet p p' \/
  ((flag p = FStringValue \/ flag p = FIntValue) /\
   exists f, (f = FDiv \/ f = FParam) /\ setKeyValue (set_flag f p) = (p', r)).
Proof.
  unfold signatureByte. destruct (flag p) eqn:Hf;
    unfold parseKeyword, parseKey, parseEqual, parseQuote, parseStringValue,
      parseIntValue, parseDiv, setKeyword, ok, fail; intros H;
    repeat match type of H with
           | context [if ?b then _ else _] => destruct b eqn:?
           end;
    try (right; split; [auto|]; eexists; split; [|exact H]; auto; fail);
    left; inversion H; subst; clear H;
    try (destruct (enterValue_cases p) as [-> | ->]);
    unfold quiet; simpl; tauto.
Qed.

Lemma handleSignatureEOF_cases (p p' : Parser) (r : option ParserError) :
  handleSignatureEOF p = (p', r) ->
  quiet p p' \/ (flag p = FIntValue /\ setKeyValue p = (p', r)).
Proof.
  unfold handleSignatureEOF. destruct (flag p) eqn:Hf;
    unfold setKeyword, ok, fail; intros H;
    repeat match type of H with
           | context [if ?b then _ else _] => destruct b eqn:?
           end;
    try (right; split; [reflexivity|exact H]);
    left; inversion H; subst; unfold quiet; simpl; tauto.
Qed.

Lemma set_flag_id (p : Parser) : set_flag (flag p) p = p.
Proof. destruct p; reflexivity. Qed.

(** ** The default of the header list *)

Lemma NewParser_headersUnset : headersUnset NewParser.
Proof. intros _. left. reflexivity. Qed.

Lemma quiet_headersUnset (p p' : Parser) :
  quiet p p' -> headersUnset p -> headersUnset p'.
Proof.
  unfold quiet, headersUnset. intros (Hp & _ & _ & _ & _ & _ & Hh) H.
  rewrite Hp, Hh. exact H.
Qed.

Lemma setKeyValue_headersUnset (p p' : Parser) :
  headersUnset p -> setKeyValue p = (p', None) -> headersUnset p'.
Proof.
  unfold headersUnset. intros Hp H.
  apply setKeyValue_ok in H as (_ & _ & Hpar & _ & _ & _ & _ & _ & Hh).
  rewrite Hpar, param_seen_insert.
  destruct (String.eqb_spec (string_of_list_ascii (key p)) "headers") as [E|N];
    [discriminate|].
  intros Hs. rewrite (Hh N). auto.
Qed.

Lemma signatureByte_headersUnset (p : Parser) (c : byte) (p' : Parser) :
  headersUnset p -> signatureByte p c = (p', None) -> headersUnset p'.
Proof.
  intros Hp H. apply signatureByte_cases in H as [Hq | (_ & f & _ & Hs)].
  - eapply quiet_headersUnset; eauto.
  - eapply setKeyValue_headersUnset; [|exact Hs]. exact Hp.
Qed.

Lemma signatureLoop_headersUnset (bs : list byte) (p p' : Parser) :
  headersUnset p -> signatureLoop p bs = (p', None) -> headersUnset p'.
Proof.
  intros Hp. rewrite signatureLoop_bytes.
  destruct (signatureBytes p bs) as [p1 [e|]] eqn:Hb; [discriminate|].
  intros H.
  assert (H1 : headersUnset p1).
  { eapply (signatureBytes_inv headersUnset); eauto.
    intros; eapply signatureByte_headersUnset; eauto. }
  apply handleSignatureEOF_cases in H as [Hq | (_ & Hs)].
  - eapply quiet_headersUnset; eauto.
  - eapply setKeyValue_headersUnset; eauto.
Qed.

(** C5.  A successful parse of an [Authorization] or [Signature] header
    after which no [headers] parameter is in the visited set returns the
    header list [["(created)"]].  The parser is a fresh one, or any parser
    on which no [headers] parameter has completed ([headersUnset]). *)
Theorem C5_default_headers (p p' : Parser) (h : string) (ph : ParsedHeader) :
  headersUnset p ->
  ParseAuthorizationHeader p h = (p', (ph, None)) \/
  ParseSignatureHeader p h = (p', (ph, None)) ->
  param_seen (params p') "headers" = false ->
  headers ph = ["(created)"].
Proof.
  intros Hp H.
  assert (Hf : exists f, parseSignature (set_flag f p) h = (p', (ph, None))).
  { destruct H as [H | H]; eexists; exact H. }
  clear H. destruct Hf as [f H]. revert H. unfold parseSignature.
  destruct (String.length h =? 0)%nat; [discriminate|].
  destruct (signatureLoop (set_flag f p) (list_ascii_of_string h))
    as [p1 [e|]] eqn:Hl; [discriminate|].
  apply signatureLoop_headersUnset in Hl; [|exact Hp].
  destruct (length (headers (parsedHeader p1)) =? 0)%nat eqn:Hlen.
  - intros [= <- <-] _. simpl.
    apply length_zero_nil in Hlen. rewrite Hlen. reflexivity.
  - intros [= <- <-] Hs. destruct (Hl Hs) as [E | E]; [|exact E].
    rewrite E in Hlen. discriminate.
Qed.

Lemma C5_default_headers_witness :
  headers (fst (snd (ParseSignatureHeader NewParser example_keyId))) = ["(created)"].
Proof.
  apply (C5_default_headers NewParser
           (fst (ParseSignatureHeader NewParser example_keyId)) example_keyId).
  - exact NewParser_headersUnset.
  - right. vm_compute. reflexivity.
  - vm_compute. reflexivity.
Defined.

(** ** End of input *)

Lemma setKeyValue_flag (p p' : Parser) (r : option ParserError) :
  setKeyValue p = (p', r) -> flag p' = flag p.
Proof.
  destruct r as [e|]; intros H.
  - apply setKeyValue_err in H. tauto.
  - apply setKeyValue_ok in H. tauto.
Qed.

Lemma enterValue_sigFlag (p : Parser) : sigFlag (flag (enterValue p)) = true.
Proof. destruct (enterValue_cases p) as [-> | ->]; reflexivity. Qed.

(** A step that succeeds ends in one of the seven states of the parameter
    grammar. *)
Lemma signatureByte_sigFlag (p p' : Parser) (c : byte) :
  signatureByte p c = (p', None) -> sigFlag (flag p') = true.
Proof.
  unfold signatureByte. destruct (flag p) eqn:Hf;
    unfold parseKeyword, parseKey, parseEqual, parseQuote, parseStringValue,
      parseIntValue, parseDiv, setKeyword, ok, fail; intros H;
    repeat match type of H with
           | context [if ?b then _ else _] => destruct b eqn:?
           end;
    try discriminate;
    try (apply setKeyValue_flag in H; rewrite H; reflexivity);
    inversion H; subst; simpl; try rewrite Hf; auto using enterValue_sigFlag.
Qed.

Lemma signatureBytes_sigFlag (bs : list byte) (p p' : Parser) :
  sigFlag (flag p) = true -> signatureBytes p bs = (p', None) ->
  sigFlag (flag p') = true.
Proof.
  apply (signatureBytes_inv (fun p => sigFlag (flag p) = true)).
  intros q c q' _. apply signatureByte_sigFlag.
Qed.

Lemma string_length_zero (h : string) :
  (String.length h =? 0)%nat = true <-> h = EmptyString.
Proof. destruct h; simpl; split; intros; congruence. Qed.

(** The error of a parse, once the bytes of the header are scanned, is the
    error of [handleSignatureEOF]. *)
Lemma parseSignature_eof (p p1 : Parser) (h : string) :
  h <> EmptyString ->
  signatureBytes p (list_ascii_of_string h) = (p1, None) ->
  snd (snd (parseSignature p h)) = snd (handleSignatureEOF p1).
Proof.
  intros Hne Hb. unfold parseSignature.
  destruct (String.length h =? 0)%nat eqn:Hl.
  { apply string_length_zero in Hl. contradiction. }
  rewrite signatureLoop_bytes, Hb.
  destruct (handleSignatureEOF p1) as [p2 [e|]]; reflexivity.
Qed.

(** C2 (as amended).  Once the bytes of a non-empty parameter header are
    scanned, the end of the input is accepted exactly in state [div] (after
    a closed quote, or after an integer ended by a space), in state
    [intValue] when [setKeyValue] accepts the integer, and in state
    [keyword] when the keyword read is [Signature].  In the states [param],
    [equal], [quote] and [stringValue] it is the error "unexpected end of
    header, expected ...", and at the very start of [param] (empty key) the
    message is "unexpected end of header, expected parameter". *)
Theorem C2_end_of_input (p p1 : Parser) (h : string) :
  flag p = FKeyword \/ flag p = FParam ->
  h <> EmptyString ->
  signatureBytes p (list_ascii_of_string h) = (p1, None) ->
  (snd (snd (parseSignature p h)) = None <-> eofClean p1) /\
  (flag p1 = FParam \/ flag p1 = FEqual \/ flag p1 = FQuote \/ flag p1 = FStringValue ->
   exists tok, snd (snd (parseSignature p h)) =
               Some (mkError ("unexpected end of header, expected " ++ tok))) /\
  (flag p1 = FParam -> key p1 = [] ->
   snd (snd (parseSignature p h)) =
   Some (mkError "unexpected end of header, expected parameter")).
Proof.
  intros Hf Hne Hb.
  rewrite (parseSignature_eof p p1 h Hne Hb).
  assert (Hs : sigFlag (flag p1) = true).
  { eapply signatureBytes_sigFlag; [|exact Hb].
    destruct Hf as [-> | ->]; reflexivity. }
  unfold handleSignatureEOF, eofClean, mkError.
  destruct (flag p1) eqn:H1; try discriminate; simpl.
  - (* keyword *)
    unfold setKeyword.
    destruct (String.eqb_spec "Signature" (string_of_list_ascii (keyword p1)));
      simpl; repeat split; try intuition congruence.
  - (* param *)
    repeat split; try intuition congruence.
    + destruct (length (key p1) =? 0)%nat; discriminate.
    + intros _. destruct (length (key p1) =? 0)%nat; eexists; reflexivity.
    + intros _ ->. reflexivity.
  - (* equal *)
    repeat split; try intuition congruence.
    intros _. eexists; reflexivity.
  - (* quote *)
    repeat split; try intuition congruence.
    intros _. eexists; reflexivity.
  - (* stringValue *)
    repeat split; try intuition congruence.
    intros _. eexists; reflexivity.
  - (* intValue *)
    repeat split; try intuition congruence.
  - (* div *)
    repeat split; try intuition congruence.
Qed.

Lemma C2_end_of_input_witness :
  snd (snd (parseSignature (set_flag FParam NewParser) example_keyId)) = None /\
  snd (snd (parseSignature (set_flag FParam NewParser) example_trailing_comma)) =
  Some (mkError "unexpected end of header, expected parameter").
Proof.
  split.
  - apply (C2_end_of_input (set_flag FParam NewParser)
             (fst (signatureBytes (set_flag FParam NewParser)
                     (list_ascii_of_string example_keyId))) example_keyId).
    + right; reflexivity.
    + discriminate.
    + vm_compute; reflexivity.
    + left; reflexivity.
  - apply (C2_end_of_input (set_flag FParam NewParser)
             (fst (signatureBytes (set_flag FParam NewParser)
                     (list_ascii_of_string example_trailing_comma)))
             example_trailing_comma).
    + right; reflexivity.
    + discriminate.
    + vm_compute; reflexivity.
    + reflexivity.
    + reflexivity.
Defined.

(** The specification accepts the end of the input "at the very start of
    [param]".  After the comma of [keyId="Test",] the scanner is in state
    [param] with an empty key, and the parse fails. *)
Lemma C2_counterexample :
  let p1 := fst (signatureBytes (set_flag FParam NewParser)
                   (list_ascii_of_string example_trailing_comma)) in
  snd (signatureBytes (set_flag FParam NewParser)
         (list_ascii_of_string example_trailing_comma)) = None /\
  flag p1 = FParam /\ key p1 = [] /\
  snd (ParseSignatureHeader NewParser example_trailing_comma) =
  (zeroParsedHeader,
   Some (mkError "unexpected end of header, expected parameter")).
Proof. vm_compute. repeat split. Qed.

(** ** Bytes outside a state's class *)

(** [parseKeyword] has no error branch: a byte that is neither a letter nor
    a space after the keyword is dropped and the scan goes on. *)
Lemma parseKeyword_skips (p : Parser) (cur : byte) :
  isLetter cur = false -> beq cur space = false ->
  parseKeyword p cur = (p, None).
Proof. unfold parseKeyword. intros -> ->. reflexivity. Qed.

(** [parseIntValue] has no error branch either. *)
Lemma parseIntValue_skips (p : Parser) (cur : byte) :
  isDigit cur = false -> beq cur space = false -> beq cur div = false ->
  parseIntValue p cur = (p, None).
Proof. unfold parseIntValue. intros -> -> ->. reflexivity. Qed.

(** C1.  The code at a header whose first token is [Sig-nature]: the ['-']
    is dropped by [parseKeyword], the letters read spell [Signature], and
    the parse succeeds. *)
Theorem C1_keyword_not_enforced :
  snd (ParseAuthorizationHeader NewParser example_broken_keyword) =
  ({| h_keyword := "Signature"; keyID := "Test"; signature := "c2ln";
      algorithm := EmptyString; created := TimeZero; expires := TimeZero;
      headers := ["(created)"] |}, None).
Proof. vm_compute. reflexivity. Qed.

(** In state [keyword] the letters are appended to the keyword buffer. *)
Lemma keyword_letters (w : list byte) (p : Parser) (rest : list byte) :
  forallb isLetter w = true -> flag p = FKeyword ->
  signatureLoop p (w ++ rest) = signatureLoop (set_keyword (keyword p ++ w) p) rest.
Proof.
  revert p. induction w as [|c w IH]; intros p Hw Hf; simpl.
  - rewrite app_nil_r. destruct p; reflexivity.
  - simpl in Hw. apply andb_prop in Hw as [Hc Hw].
    unfold signatureByte. rewrite Hf. unfold parseKeyword. rewrite Hc. simpl.
    rewrite IH by auto. simpl. now rewrite <- app_assoc.
Qed.

Lemma setKeyword_wrong (p : Parser) :
  string_of_list_ascii (keyword p) <> "Signature" ->
  setKeyword p =
  (p, Some (mkError "invalid Authorization header, must start from Signature keyword")).
Proof.
  intros Hne. unfold setKeyword.
  destruct (String.eqb_spec "Signature" (string_of_list_ascii (keyword p)));
    [congruence|reflexivity].
Qed.

(** Where the first token is made of letters only, the keyword is enforced:
    the scan stops at the first space with the error of [setKeyword]. *)
Lemma keyword_enforced_on_letters (w : list byte) (rest : list byte) (p : Parser) :
  forallb isLetter w = true -> w <> [] -> keyword p = [] ->
  string_of_list_ascii w <> "Signature" ->
  snd (signatureLoop (set_flag FKeyword p) (w ++ space :: rest)) =
  Some (mkError "invalid Authorization header, must start from Signature keyword") /\
  snd (signatureLoop (set_flag FKeyword p) w) =
  Some (mkError "invalid Authorization header, must start from Signature keyword").
Proof.
  intros Hw Hnil Hk Hne. split.
  - rewrite keyword_letters by auto.
    cbn [signatureLoop signatureByte set_keyword set_flag flag keyword].
    rewrite Hk. cbn [app].
    unfold parseKeyword. cbn [set_keyword keyword].
    replace (isLetter space) with false by reflexivity.
    replace (beq space space) with true by reflexivity.
    destruct w as [|c w]; [contradiction|]. cbn [length Nat.ltb Nat.leb andb].
    rewrite setKeyword_wrong; [reflexivity|exact Hne].
  - rewrite <- (app_nil_r w) at 1. rewrite keyword_letters by auto.
    cbn [signatureLoop handleSignatureEOF set_keyword set_flag flag keyword].
    rewrite Hk. cbn [app].
    rewrite setKeyword_wrong; [reflexivity|exact Hne].
Qed.

(** C3.  The code at [created=1x2]: the ['x'] is dropped by
    [parseIntValue] and the value stored is 12. *)
Theorem C3_int_value_not_enforced :
  snd (ParseSignatureHeader NewParser example_broken_created) =
  ({| h_keyword := EmptyString; keyID := EmptyString; signature := EmptyString;
      algorithm := EmptyString; created := Unix 12; expires := TimeZero;
      headers := ["(created)"] |}, None).
Proof. vm_compute. reflexivity. Qed.

(** ** Duplicate parameters *)

(** [setKeyValue] on a key that is already in the visited set: the error,
    and a parser that is left as it was. *)
Lemma setKeyValue_duplicate (p : Parser) :
  value p <> [] ->
  param_seen (params p) (string_of_list_ascii (key p)) = true ->
  setKeyValue p = (p, Some (duplicateError (string_of_list_ascii (key p)))).
Proof.
  intros Hv Hs. unfold setKeyValue.
  destruct (length (value p) =? 0)%nat eqn:Hl.
  { apply length_zero_nil in Hl. contradiction. }
  rewrite Hs. reflexivity.
Qed.

Lemma beq_eq (a b : byte) : beq a b = true -> a = b.
Proof. apply Ascii.eqb_eq. Qed.

(** A completing byte is the call [setKeyValue] after the state moved on. *)
Lemma completes_step (p : Parser) (c : byte) :
  completes p c = true -> value p <> [] ->
  exists f, signatureByte p c = setKeyValue (set_flag f p).
Proof.
  unfold completes, signatureByte. intros Hc Hv.
  destruct (flag p); try discriminate.
  - apply beq_eq in Hc as ->. exists FDiv. reflexivity.
  - unfold parseIntValue.
    destruct (length (value p) =? 0)%nat eqn:Hl.
    { apply length_zero_nil in Hl. contradiction. }
    apply orb_prop in Hc as [Hc | Hc]; apply beq_eq in Hc as ->.
    + exists FDiv. reflexivity.
    + exists FParam. reflexivity.
Qed.

Lemma string_of_list_length (l : list byte) :
  l <> [] -> (String.length (string_of_list_ascii l) =? 0)%nat = false.
Proof. destruct l; [contradiction|reflexivity]. Qed.

(** C7.  The visited set [params] holds the names that completed a value.
    When the scan of a prefix [pre] of the header has left a non-empty value
    for a name that is in the visited set, the byte that completes it (and,
    for an integer, also the end of the input) makes the parse fail with
    "duplicate param '<key>'", and the stored fields and the visited set are
    as the scan of the prefix left them. *)
Theorem C7_duplicate_param (p p1 : Parser) (pre rest : list byte) (c : byte) :
  signatureBytes p pre = (p1, None) ->
  value p1 <> [] ->
  param_seen (params p1) (string_of_list_ascii (key p1)) = true ->
  (completes p1 c = true ->
   exists p2,
     parseSignature p (string_of_list_ascii (pre ++ c :: rest)) =
     (p2, (zeroParsedHeader,
           Some (duplicateError (string_of_list_ascii (key p1))))) /\
     parsedHeader p2 = parsedHeader p1 /\ params p2 = params p1) /\
  (flag p1 = FIntValue -> pre <> [] ->
   parseSignature p (string_of_list_ascii pre) =
   (p1, (zeroParsedHeader,
         Some (duplicateError (string_of_list_ascii (key p1)))))).
Proof.
  intros Hb Hv Hs. split.
  - intros Hc.
    destruct (completes_step p1 c Hc Hv) as [f Hstep].
    exists (set_flag f p1). split; [|split; reflexivity].
    unfold parseSignature.
    rewrite string_of_list_length by (destruct pre; discriminate).
    rewrite list_ascii_of_string_of_list_ascii.
    rewrite signatureLoop_bytes, (signatureBytes_app _ _ _ _ Hb).
    cbn [signatureBytes]. rewrite Hstep.
    rewrite (setKeyValue_duplicate (set_flag f p1)) by assumption.
    reflexivity.
  - intros Hf Hne.
    unfold parseSignature.
    rewrite string_of_list_length by assumption.
    rewrite list_ascii_of_string_of_list_ascii.
    rewrite signatureLoop_bytes, Hb.
    unfold handleSignatureEOF. rewrite Hf.
    rewrite setKeyValue_duplicate by assumption.
    reflexivity.
Qed.

Lemma C7_duplicate_param_witness :
  exists p2,
    parseSignature (set_flag FParam NewParser)
      (string_of_list_ascii (example_duplicate_prefix ++ [quote])) =
    (p2, (zeroParsedHeader, Some (duplicateError "keyId"))) /\
    keyID (parsedHeader p2) = "Test".
Proof.
  destruct (C7_duplicate_param (set_flag FParam NewParser)
              (fst (signatureBytes (set_flag FParam NewParser) example_duplicate_prefix))
              example_duplicate_prefix [] quote)
    as [H _].
  - vm_compute. reflexivity.
  - vm_compute. discriminate.
  - vm_compute. reflexivity.
  - destruct H as (p2 & H & Hh & _); [vm_compute; reflexivity|].
    exists p2. split; [exact H|]. rewrite Hh. vm_compute. reflexivity.
Defined.

(** In state [param] the letters are appended to the key buffer. *)
Lemma key_letters (k : list byte) (p : Parser) (rest : list byte) :
  forallb isLetter k = true -> flag p = FParam ->
  signatureBytes p (k ++ rest) = signatureBytes (set_key (key p ++ k) p) rest.
Proof.
  revert p. induction k as [|c k IH]; intros p Hk Hf; simpl.
  - rewrite app_nil_r. destruct p; reflexivity.
  - simpl in Hk. apply andb_prop in Hk as [Hc Hk].
    unfold signatureByte. rewrite Hf. unfold parseKey. rewrite Hc. cbn [ok].
    rewrite IH by auto. cbn [set_key key]. rewrite <- app_assoc. reflexivity.
Qed.

(** In state [stringValue] every byte but the quote is appended to the value. *)
Lemma string_value_bytes (v : list byte) (p : Parser) (rest : list byte) :
  forallb notQuote v = true -> flag p = FStringValue ->
  signatureBytes p (v ++ rest) = signatureBytes (set_value (value p ++ v) p) rest.
Proof.
  revert p. induction v as [|c v IH]; intros p Hv Hf; simpl.
  - rewrite app_nil_r. destruct p; reflexivity.
  - simpl in Hv. apply andb_prop in Hv as [Hc Hv].
    unfold signatureByte. rewrite Hf. unfold parseStringValue.
    unfold notQuote in Hc. rewrite Hc. cbn [ok].
    rewrite IH by auto. cbn [set_value value]. rewrite <- app_assoc. reflexivity.
Qed.

(** The scan of one parameter [k="v"] up to the call of [setKeyValue]. *)
Lemma scan_string_param (k v : list byte) (p : Parser) (rest : list byte) :
  forallb isLetter k = true -> forallb notQuote v = true ->
  getValueType (set_key k p) = "string" ->
  flag p = FParam -> key p = [] -> value p = [] ->
  signatureBytes p (stringParam k v ++ rest) =
  match setKeyValue (set_flag FDiv (atClosingQuote k v p)) with
  | (p', Some e) => (p', Some e)
  | (p', None) => signatureBytes p' rest
  end.
Proof.
  intros Hk Hv Ht Hf Hkey Hval. unfold stringParam, atClosingQuote.
  rewrite <- app_assoc, key_letters by assumption.
  rewrite Hkey. cbn [app signatureBytes].
  unfold signatureByte at 1. cbn [set_key flag]. rewrite Hf.
  unfold parseKey.
  replace (isLetter equal) with false by reflexivity.
  replace (beq equal equal) with true by reflexivity.
  unfold enterValue. rewrite Ht. cbn [String.eqb Ascii.eqb Bool.eqb ok].
  unfold signatureByte at 1. cbn [set_flag set_key flag].
  unfold parseQuote. replace (beq quote quote) with true by reflexivity. cbn [ok].
  rewrite <- app_assoc, string_value_bytes by (assumption || reflexivity).
  cbn [set_flag set_key set_value value]. rewrite Hval. cbn [app signatureBytes].
  unfold signatureByte at 1. cbn [set_flag set_key set_value flag].
  unfold parseStringValue. replace (negb (beq quote quote)) with false by reflexivity.
  replace (beq quote quote) with true by reflexivity.
  reflexivity.
Qed.

(** [setKeyValue] succeeds on a fresh name with a value, for a key that is
    not [created] or [expires]. *)
Lemma setKeyValue_string_ok (p : Parser) :
  value p <> [] ->
  param_seen (params p) (string_of_list_ascii (key p)) = false ->
  getValueType p = "string" ->
  exists p', setKeyValue p = (p', None).
Proof.
  intros Hv Hs Ht. unfold setKeyValue.
  destruct (length (value p) =? 0)%nat eqn:Hl.
  { apply length_zero_nil in Hl. contradiction. }
  rewrite Hs. cbn [set_params key value parsedHeader].
  unfold getValueType in Ht.
  repeat match goal with
         | |- context [String.eqb ?a ?b] =>
             destruct (String.eqb a b) eqn:?; try (eexists; reflexivity)
         end;
    simpl in Ht; discriminate.
Qed.

(** The same on the text itself: a parameter [k="v1"] followed by
    [,k="v2"] for a key that takes a quoted value.  The second occurrence
    is refused when its closing quote is read, and what the first one
    stored is still there. *)
Lemma duplicate_string_param (k v1 v2 rest : list byte) (p : Parser) :
  forallb isLetter k = true ->
  forallb notQuote v1 = true -> forallb notQuote v2 = true ->
  v1 <> [] -> v2 <> [] ->
  getValueType (set_key k p) = "string" ->
  key p = [] -> value p = [] ->
  param_seen (params p) (string_of_list_ascii k) = false ->
  exists p1 p2,
    setKeyValue (set_flag FDiv (atClosingQuote k v1 (set_flag FParam p))) = (p1, None) /\
    ParseSignatureHeader p
      (string_of_list_ascii (stringParam k v1 ++ div :: stringParam k v2 ++ rest)) =
    (p2, (zeroParsedHeader, Some (duplicateError (string_of_list_ascii k)))) /\
    parsedHeader p2 = parsedHeader p1.
Proof.
  intros Hk Hv1 Hv2 Hn1 Hn2 Ht Hkey Hval Hs.
  set (p0 := set_flag FParam p).
  destruct (setKeyValue_string_ok (set_flag FDiv (atClosingQuote k v1 p0)))
    as [p1 E1]; try assumption.
  pose proof E1 as Hok.
  apply setKeyValue_ok in Hok as (_ & _ & Hpar & Hk1 & Hval1 & Hf1 & _).
  cbn [atClosingQuote set_flag set_value set_key key flag params p0] in Hpar, Hf1.
  set (q := set_flag FParam p1).
  set (b := set_flag FDiv (atClosingQuote k v2 q)).
  assert (Hseen : param_seen (params b) (string_of_list_ascii (key b)) = true).
  { cbn [b q atClosingQuote set_flag set_value set_key key params].
    rewrite Hpar, param_seen_insert. now rewrite String.eqb_refl. }
  exists p1, b. split; [exact E1|]. split; [|reflexivity].
  unfold ParseSignatureHeader, parseSignature. fold p0.
  rewrite string_of_list_length by (unfold stringParam; destruct k; discriminate).
  rewrite list_ascii_of_string_of_list_ascii.
  rewrite signatureLoop_bytes.
  rewrite (scan_string_param k v1 p0) by (assumption || reflexivity).
  rewrite E1. cbn [signatureBytes].
  unfold signatureByte at 1. rewrite Hf1. unfold parseDiv.
  replace (beq div div) with true by reflexivity. cbn [ok]. fold q.
  rewrite (scan_string_param k v2 q); try assumption; try reflexivity.
  fold b. rewrite (setKeyValue_duplicate b); [reflexivity|exact Hn2|exact Hseen].
Qed.

(** ** The range of [created] and [expires] *)

Lemma digitVal_nonneg (c : byte) : (0 <= digitVal c)%Z.
Proof. unfold digitVal. lia. Qed.

Lemma decimalFrom_ge (v : list byte) (n : Z) :
  (0 <= n)%Z -> (n <= decimalFrom n v)%Z.
Proof.
  revert n. induction v as [|c v IH]; intros n Hn; unfold decimalFrom; simpl; [lia|].
  pose proof (digitVal_nonneg c).
  fold (decimalFrom (n * 10 + digitVal c) v).
  specialize (IH (n * 10 + digitVal c)%Z). lia.
Qed.

(** On digits, [ParseUint]'s loop returns the number, or a range error when
    the number is past [2^32 - 1]; it never reports a syntax error. *)
Lemma parseUintLoop_digits (v : list byte) (n : Z) :
  forallb isDigit v = true -> (0 <= n)%Z ->
  match parseUintLoop n v with
  | inl m => m = decimalFrom n v
  | inr ErrRange => (4294967295 < decimalFrom n v)%Z
  | inr ErrSyntax => False
  end.
Proof.
  revert n. induction v as [|c v IH]; intros n Hd Hn; simpl; [reflexivity|].
  simpl in Hd. apply andb_prop in Hd as [Hc Hd]. rewrite Hc.
  fold (digitVal c). pose proof (digitVal_nonneg c).
  unfold decimalFrom. simpl. fold (decimalFrom (n * 10 + digitVal c) v).
  destruct (n * 10 + digitVal c >? 4294967295)%Z eqn:Hgt.
  - pose proof (decimalFrom_ge v (n * 10 + digitVal c)%Z). lia.
  - apply IH; [exact Hd|lia].
Qed.

Lemma digit_not_sign (c : byte) :
  isDigit c = true -> beq c "+"%char = false /\ beq c "-"%char = false.
Proof.
  destruct c as [[] [] [] [] [] [] [] []]; vm_compute; intros; try discriminate; auto.
Qed.

(** [ParseInt(s, 10, 32)] on a string of digits that denotes more than
    [2^31 - 1]. *)
Lemma ParseInt32_range (v : list byte) :
  forallb isDigit v = true -> (2147483647 < decimal v)%Z ->
  ParseInt32 (string_of_list_ascii v) =
  (2147483647%Z, Some (rangeError (string_of_list_ascii v))).
Proof.
  intros Hd Hbig. unfold ParseInt32.
  rewrite list_ascii_of_string_of_list_ascii.
  destruct v as [|c v]; [vm_compute in Hbig; discriminate|].
  pose proof Hd as Hd'. simpl in Hd'. apply andb_prop in Hd' as [Hc _].
  destruct (digit_not_sign c Hc) as [-> ->]. cbn [orb negb andb].
  unfold ParseUint32.
  pose proof (parseUintLoop_digits (c :: v) 0 Hd ltac:(lia)) as H.
  fold (decimal (c :: v)) in H.
  destruct (parseUintLoop 0 (c :: v)) as [un | []]; try contradiction.
  - subst un. replace (decimal (c :: v) >=? 2147483648)%Z with true by lia.
    reflexivity.
  - reflexivity.
Qed.

Lemma intToTime_range (v : list byte) :
  forallb isDigit v = true -> (2147483647 < decimal v)%Z ->
  intToTime v = (Unix 0, Some (rangeError (string_of_list_ascii v))).
Proof. intros Hd Hbig. unfold intToTime. now rewrite ParseInt32_range. Qed.

(** [setKeyValue] on a [created] or [expires] value past [2^31 - 1]: the
    error wraps the range error, and the time stored is [time.Unix(0, 0)]. *)
Lemma setKeyValue_range (p : Parser) :
  string_of_list_ascii (key p) = "created" \/
  string_of_list_ascii (key p) = "expires" ->
  param_seen (params p) (string_of_list_ascii (key p)) = false ->
  forallb isDigit (value p) = true -> (2147483647 < decimal (value p))%Z ->
  exists p',
    setKeyValue p =
    (p', Some (wrongValueError (string_of_list_ascii (key p)) (value p))) /\
    (string_of_list_ascii (key p) = "created" -> created (parsedHeader p') = Unix 0) /\
    (string_of_list_ascii (key p) = "expires" -> expires (parsedHeader p') = Unix 0).
Proof.
  intros Hk Hs Hd Hbig. unfold setKeyValue.
  destruct (length (value p) =? 0)%nat eqn:Hl.
  { apply length_zero_nil in Hl. rewrite Hl in Hbig. vm_compute in Hbig. discriminate. }
  rewrite Hs. cbn [set_params value key parsedHeader].
  rewrite (intToTime_range _ Hd Hbig).
  destruct Hk as [Hk | Hk]; rewrite Hk; cbn [String.eqb Ascii.eqb Bool.eqb];
    eexists; (split; [reflexivity|]); split; intros E;
    solve [reflexivity | discriminate E].
Qed.

(** In state [intValue] the digits are appended to the value buffer. *)
Lemma intValue_digits (v : list byte) (p : Parser) :
  flag p = FIntValue -> forallb isDigit v = true ->
  signatureBytes p v = (set_value (value p ++ v) p, None).
Proof.
  revert p. induction v as [|c v IH]; intros p Hf Hd; simpl.
  - rewrite app_nil_r. destruct p; reflexivity.
  - simpl in Hd. apply andb_prop in Hd as [Hc Hd].
    unfold signatureByte. rewrite Hf. unfold parseIntValue. rewrite Hc.
    cbn [ok]. rewrite IH by auto. cbn [set_value value].
    rewrite <- app_assoc. reflexivity.
Qed.

(** C10.  The scanner has read a prefix [pre] of the header and stands at
    the start of the value of [created] (resp. [expires]), seen for the
    first time.  If the value is a string [v] of digits that denotes more
    than 2147483647, the parse fails with "wrong 'created' param value"
    (resp. "wrong 'expires' param value") wrapping the range error of
    [strconv.ParseInt] on [v], and the time stored is [time.Unix(0, 0)],
    not the number read. *)
Theorem C10_int32_range (p p1 : Parser) (pre v tail : list byte) :
  signatureBytes p pre = (p1, None) ->
  flag p1 = FIntValue -> value p1 = [] ->
  string_of_list_ascii (key p1) = "created" \/
  string_of_list_ascii (key p1) = "expires" ->
  param_seen (params p1) (string_of_list_ascii (key p1)) = false ->
  forallb isDigit v = true -> (2147483647 < decimal v)%Z ->
  endsInt tail = true ->
  exists p2,
    parseSignature p (string_of_list_ascii (pre ++ v ++ tail)) =
    (p2, (zeroParsedHeader,
          Some (wrongValueError (string_of_list_ascii (key p1)) v))) /\
    (string_of_list_ascii (key p1) = "created" -> created (parsedHeader p2) = Unix 0) /\
    (string_of_list_ascii (key p1) = "expires" -> expires (parsedHeader p2) = Unix 0).
Proof.
  intros Hb Hf Hv Hk Hs Hd Hbig Ht.
  assert (Hvne : v <> []).
  { intros ->. vm_compute in Hbig. discriminate. }
  set (q := set_value v p1).
  assert (Hq : signatureBytes p (pre ++ v) = (q, None)).
  { rewrite (signatureBytes_app _ _ _ _ Hb).
    rewrite intValue_digits by assumption. rewrite Hv. reflexivity. }
  assert (Hfin : forall f, exists p2,
             setKeyValue (set_flag f q) =
             (p2, Some (wrongValueError (string_of_list_ascii (key p1)) v)) /\
             (string_of_list_ascii (key p1) = "created" ->
              created (parsedHeader p2) = Unix 0) /\
             (string_of_list_ascii (key p1) = "expires" ->
              expires (parsedHeader p2) = Unix 0)).
  { intros f. apply (setKeyValue_range (set_flag f q)); assumption. }
  unfold parseSignature.
  rewrite string_of_list_length by (destruct pre, v; try discriminate; congruence).
  rewrite list_ascii_of_string_of_list_ascii, app_assoc.
  rewrite signatureLoop_bytes, (signatureBytes_app _ _ _ _ Hq).
  destruct tail as [|c tail].
  - cbn [signatureBytes ok]. unfold handleSignatureEOF.
    replace (flag q) with FIntValue by (symmetry; exact Hf).
    destruct (Hfin FIntValue) as (p2 & E & H1 & H2).
    replace (set_flag FIntValue q) with q in E
      by (rewrite <- Hf at 1; symmetry; apply (set_flag_id q)).
    rewrite E. exists p2. auto.
  - cbn [signatureBytes]. unfold signatureByte.
    replace (flag q) with FIntValue by (symmetry; exact Hf).
    unfold parseIntValue.
    replace (length (value q) =? 0)%nat with false
      by (symmetry; destruct v; [contradiction|reflexivity]).
    simpl in Ht. apply orb_prop in Ht as [Hc | Hc]; apply beq_eq in Hc as ->;
      cbn [isDigit ble beq Ascii.eqb Bool.eqb space div from0 to9 N_of_ascii
             N.leb N.compare Pos.compare Pos.compare_cont andb].
    + destruct (Hfin FDiv) as (p2 & E & H1 & H2). rewrite E. exists p2. auto.
    + destruct (Hfin FParam) as (p2 & E & H1 & H2). rewrite E. exists p2. auto.
Qed.

Lemma C10_int32_range_witness :
  exists p2,
    parseSignature (set_flag FParam NewParser) "created=2147483648" =
    (p2, (zeroParsedHeader, Some (wrongValueError "created" example_too_large))) /\
    created (parsedHeader p2) = Unix 0.
Proof.
  destruct (C10_int32_range (set_flag FParam NewParser)
              (fst (signatureBytes (set_flag FParam NewParser) example_created_prefix))
              example_created_prefix example_too_large [])
    as (p2 & H & Hc & _).
  - vm_compute. reflexivity.
  - vm_compute. reflexivity.
  - vm_compute. reflexivity.
  - left. vm_compute. reflexivity.
  - vm_compute. reflexivity.
  - vm_compute. reflexivity.
  - vm_compute. reflexivity.
  - reflexivity.
  - exists p2. split; [exact H|]. apply Hc. vm_compute. reflexivity.
Defined.

(** ** The digest header *)

Lemma algorithm_bytes (name : list byte) (p : Parser) (rest : list byte) :
  forallb isAlgorithmByte name = true -> flag p = FAlgorithm ->
  digestLoop p (name ++ rest) = digestLoop (set_key (key p ++ name) p) rest.
Proof.
  revert p. induction name as [|c name IH]; intros p Hn Hf; simpl.
  - rewrite app_nil_r. destruct p; reflexivity.
  - simpl in Hn. apply andb_prop in Hn as [Hc Hn].
    unfold digestByte. rewrite Hf. unfold parseAlgorithm.
    unfold isAlgorithmByte in Hc. rewrite Hc. cbn [ok].
    rewrite IH by auto. cbn [set_key key]. rewrite <- app_assoc. reflexivity.
Qed.

Lemma raw_value_bytes (v : list byte) (p : Parser) :
  flag p = FStringRawValue ->
  digestLoop p v = setDigest (set_value (value p ++ v) p).
Proof.
  revert p. induction v as [|c v IH]; intros p Hf; simpl.
  - rewrite app_nil_r. unfold handleDigestEOF. rewrite Hf.
    destruct p; reflexivity.
  - unfold digestByte. rewrite Hf. unfold parseStringRawValue. cbn [ok].
    rewrite IH by exact Hf. cbn [set_value value].
    rewrite <- app_assoc. reflexivity.
Qed.

Lemma list_ascii_of_string_app (a b : string) :
  list_ascii_of_string (a ++ b) = list_ascii_of_string a ++ list_ascii_of_string b.
Proof. induction a as [|c a IH]; simpl; [reflexivity|]. now rewrite IH. Qed.

Lemma string_app_length_zero (a b : string) :
  b <> EmptyString -> (String.length (a ++ b) =? 0)%nat = false.
Proof.
  intros Hb. destruct a; simpl; [|reflexivity].
  destruct b; [contradiction|reflexivity].
Qed.

(** The scan of [NAME=v]: the name up to the first [=], the rest verbatim,
    and [setDigest] at the end of the input. *)
Lemma digestLoop_name_value (p : Parser) (name v : string) :
  key p = [] -> value p = [] ->
  forallb isAlgorithmByte (list_ascii_of_string name) = true ->
  digestLoop (set_flag FAlgorithm p) (list_ascii_of_string (name ++ "=" ++ v)) =
  setDigest (set_value (list_ascii_of_string v)
               (set_flag FStringRawValue
                  (set_key (list_ascii_of_string name) (set_flag FAlgorithm p)))).
Proof.
  intros Hk Hv Hn.
  rewrite list_ascii_of_string_app.
  rewrite algorithm_bytes by (auto; reflexivity).
  cbn [set_flag key]. rewrite Hk. cbn [app].
  change (list_ascii_of_string ("=" ++ v)) with (equal :: list_ascii_of_string v).
  cbn [digestLoop]. unfold digestByte at 1. cbn [set_key set_flag flag].
  unfold parseAlgorithm.
  replace (isLetter equal || isDigit equal || beq equal min) with false by reflexivity.
  replace (beq equal equal) with true by reflexivity. cbn [ok].
  rewrite raw_value_bytes by reflexivity.
  cbn [set_flag set_key value]. rewrite Hv. reflexivity.
Qed.

(** The header [NAME=v] with a value parses to the pair of [NAME] in upper
    case and [v]. *)
Lemma ParseDigestHeader_value (p : Parser) (name v : string) :
  key p = [] -> value p = [] ->
  forallb isAlgorithmByte (list_ascii_of_string name) = true ->
  v <> EmptyString ->
  snd (ParseDigestHeader p (name ++ "=" ++ v)) =
  ({| algo := ToUpper name; digest := v |}, None).
Proof.
  intros Hk Hv Hn Hne. unfold ParseDigestHeader, parseDigest.
  rewrite string_app_length_zero by discriminate.
  rewrite (digestLoop_name_value p name v Hk Hv Hn).
  unfold setDigest. cbn [set_value set_flag set_key value key].
  destruct v as [|c v]; [contradiction|].
  cbn [list_ascii_of_string length Nat.eqb ok snd].
  cbn [set_parsedDigestHeader set_value set_key parsedDigestHeader].
  change (c :: list_ascii_of_string v) with (list_ascii_of_string (String c v)).
  rewrite !string_of_list_ascii_of_string. reflexivity.
Qed.

(** C6.  On a parser whose key and value buffers are empty, the header
    [NAME=v] with [NAME] made of letters, digits and ['-'] parses to the
    algorithm [NAME] in upper case and the digest [v], byte for byte, when
    [v] is not empty, and fails with "empty digest value" when it is. *)
Theorem C6_digest_header (p : Parser) (name v : string) :
  key p = [] -> value p = [] ->
  forallb isAlgorithmByte (list_ascii_of_string name) = true ->
  (v <> EmptyString ->
   snd (ParseDigestHeader p (name ++ "=" ++ v)) =
   ({| algo := ToUpper name; digest := v |}, None)) /\
  (v = EmptyString ->
   snd (ParseDigestHeader p (name ++ "=" ++ v)) =
   (zeroParsedDigestHeader, Some emptyDigestError)).
Proof.
  intros Hk Hv Hn. split.
  - intros Hne. unfold ParseDigestHeader, parseDigest.
    rewrite string_app_length_zero by discriminate.
    rewrite (digestLoop_name_value p name v Hk Hv Hn).
    unfold setDigest. cbn [set_value set_flag set_key value key].
    destruct v as [|c v]; [contradiction|].
    cbn [list_ascii_of_string length Nat.eqb ok snd].
    cbn [set_parsedDigestHeader set_value set_key parsedDigestHeader].
    change (c :: list_ascii_of_string v) with (list_ascii_of_string (String c v)).
    rewrite !string_of_list_ascii_of_string. reflexivity.
  - intros ->. unfold ParseDigestHeader, parseDigest.
    rewrite string_app_length_zero by discriminate.
    rewrite (digestLoop_name_value p name EmptyString Hk Hv Hn).
    reflexivity.
Qed.

Lemma C6_digest_header_witness :
  snd (ParseDigestHeader NewParser ("sha-256" ++ "=" ++ "X48E9qOokqqrvdts8nOJRJN3OWDUoyWxBf7kbu9DBPE=")) =
  ({| algo := "SHA-256"; digest := "X48E9qOokqqrvdts8nOJRJN3OWDUoyWxBf7kbu9DBPE=" |}, None) /\
  snd (ParseDigestHeader NewParser ("SHA-512" ++ "=" ++ EmptyString)) =
  (zeroParsedDigestHeader, Some emptyDigestError).
Proof.
  split.
  - apply (C6_digest_header NewParser "sha-256"
             "X48E9qOokqqrvdts8nOJRJN3OWDUoyWxBf7kbu9DBPE=");
      try reflexivity. discriminate.
  - apply (C6_digest_header NewParser "SHA-512" EmptyString); reflexivity.
Defined.

(** ** A second parse on the same parser *)

(** The visited set only grows while the parse succeeds. *)
Lemma setKeyValue_seen_mono (p p' : Parser) (k : string) :
  setKeyValue p = (p', None) ->
  param_seen (params p) k = true -> param_seen (params p') k = true.
Proof.
  intros H Hk. apply setKeyValue_ok in H as (_ & _ & -> & _).
  rewrite param_seen_insert. destruct (String.eqb _ k); auto.
Qed.

Lemma signatureLoop_seen_mono (bs : list byte) (p p' : Parser) (k : string) :
  signatureLoop p bs = (p', None) ->
  param_seen (params p) k = true -> param_seen (params p') k = true.
Proof.
  rewrite signatureLoop_bytes.
  destruct (signatureBytes p bs) as [p1 [e|]] eqn:Hb; [discriminate|].
  intros H Hk.
  assert (H1 : param_seen (params p1) k = true).
  { revert Hb. apply (signatureBytes_inv (fun q => param_seen (params q) k = true));
      [|exact Hk].
    intros q c q' Hq Hs. apply signatureByte_cases in Hs as [Hq' | (_ & f & _ & Hs)].
    - destruct Hq' as [-> _]. exact Hq.
    - eapply setKeyValue_seen_mono; [exact Hs|exact Hq]. }
  apply handleSignatureEOF_cases in H as [Hq | (_ & Hs)].
  - destruct Hq as [-> _]. exact H1.
  - eapply setKeyValue_seen_mono; eauto.
Qed.

(** One byte on two parsers that agree on state and buffers: either both
    run [setKeyValue], or both move alike without touching the visited
    set. *)
Lemma sameScan_step (a b : Parser) (c : byte) :
  sameScan a b -> midFlag (flag a) = true ->
  (exists f, signatureByte a c = setKeyValue (set_flag f a) /\
             signatureByte b c = setKeyValue (set_flag f b)) \/
  (exists a' b' r,
     signatureByte a c = (a', r) /\ signatureByte b c = (b', r) /\
     sameScan a' b' /\ params a' = params a /\ params b' = params b /\
     midFlag (flag a') = true).
Proof.
  destruct a as [ah ad akw ak av af ap], b as [bh bd bkw bk bv bf bp].
  unfold sameScan. cbn [flag key value]. intros (<- & <- & <-) Hm.
  unfold signatureByte. cbn [flag].
  destruct af; try discriminate;
    unfold parseKey, parseEqual, parseQuote, parseStringValue, parseIntValue,
      enterValue, getValueType, ok, fail;
    cbn [flag key value];
    repeat match goal with
           | |- context [if ?x then _ else _] => destruct x eqn:?
           end;
    try (left; eexists; split; reflexivity);
    right; do 3 eexists;
    (split; [reflexivity|]); (split; [reflexivity|]);
    cbn; auto.
Qed.

(** The replay: [a] parses [bs] with success, and [b], which agrees with
    [a] on state and buffers, already has in its visited set every name
    that [a] will have completed.  Then [b] stops at the first completion
    with the duplicate error. *)
Lemma replay_duplicate (bs : list byte) (a b a' : Parser) :
  sameScan a b -> midFlag (flag a) = true ->
  signatureLoop a bs = (a', None) ->
  (forall k, param_seen (params a') k = true -> param_seen (params b) k = true) ->
  exists b' k, signatureLoop b bs = (b', Some (duplicateError k)).
Proof.
  revert a b. induction bs as [|c bs IH]; intros a b Hsame Hm Ha Hseen.
  - cbn [signatureLoop] in *.
    apply handleSignatureEOF_cases in Ha as Hc.
    destruct Hsame as (Hf & Hk & Hv).
    assert (Hint : flag a = FIntValue /\ setKeyValue a = (a', None)).
    { destruct Hc as [_ | Hc]; [|exact Hc].
      unfold handleSignatureEOF in Ha.
      destruct (flag a); try discriminate; auto;
        destruct (length (key a) =? 0)%nat; discriminate. }
    destruct Hint as [Hfa Hs].
    unfold handleSignatureEOF. rewrite <- Hf, Hfa.
    apply setKeyValue_ok in Hs as (Hne & _ & Hp & _).
    exists b, (string_of_list_ascii (key b)).
    apply setKeyValue_duplicate; [congruence|].
    apply Hseen. rewrite Hp, <- Hk, param_seen_insert.
    now rewrite String.eqb_refl.
  - cbn [signatureLoop] in *.
    destruct (sameScan_step a b c Hsame Hm)
      as [(f & Ea & Eb) | (a1 & b1 & r & Ea & Eb & Hsame1 & Hpa & Hpb & Hm1)].
    + rewrite Ea in Ha. rewrite Eb.
      destruct (setKeyValue (set_flag f a)) as [a1 [e|]] eqn:Hs; [discriminate|].
      pose proof Hs as Hok.
      apply setKeyValue_ok in Hok as (Hne & _ & Hp & _).
      cbn [set_flag value params key] in Hne, Hp.
      destruct Hsame as (Hf & Hk & Hv).
      rewrite (setKeyValue_duplicate (set_flag f b)).
      * do 2 eexists. reflexivity.
      * cbn [set_flag value]. congruence.
      * cbn [set_flag params key]. apply Hseen.
        eapply signatureLoop_seen_mono; [exact Ha|].
        rewrite Hp. cbn [set_flag params key]. rewrite <- Hk, param_seen_insert.
        now rewrite String.eqb_refl.
    + rewrite Ea in Ha. rewrite Eb.
      destruct r as [e|]; [discriminate|].
      apply (IH a1 b1); auto. rewrite Hpb. exact Hseen.
Qed.

Lemma setKeyValue_resting (p p' : Parser) (f : Flag) :
  f = FDiv \/ f = FParam ->
  setKeyValue (set_flag f p) = (p', None) -> restingBuffers p'.
Proof.
  intros Hf H. apply setKeyValue_ok in H as (_ & _ & _ & Hk & Hv & Hfl & _).
  unfold restingBuffers. rewrite Hfl. cbn [set_flag flag].
  destruct Hf as [-> | ->]; auto.
Qed.

Lemma signatureByte_resting (p : Parser) (c : byte) (p' : Parser) :
  restingBuffers p -> signatureByte p c = (p', None) -> restingBuffers p'.
Proof.
  unfold signatureByte, restingBuffers at 1. destruct (flag p) eqn:Hf;
    try contradiction;
    unfold parseKey, parseEqual, parseQuote, parseStringValue, parseIntValue,
      parseDiv, ok, fail; intros Hr H;
    repeat match type of H with
           | context [if ?b then _ else _] => destruct b eqn:?
           end;
    try discriminate;
    try (eapply setKeyValue_resting; [|exact H]; auto; fail);
    inversion H; subst; clear H;
    try (destruct (enterValue_cases p) as [-> | ->]);
    unfold restingBuffers; cbn [set_flag set_key set_value flag key value];
    try rewrite Hf; auto.
Qed.

Lemma signatureLoop_buffers_empty (bs : list byte) (p p' : Parser) :
  restingBuffers p -> signatureLoop p bs = (p', None) ->
  key p' = [] /\ value p' = [].
Proof.
  intros Hr. rewrite signatureLoop_bytes.
  destruct (signatureBytes p bs) as [p1 [e|]] eqn:Hb; [discriminate|].
  assert (H1 : restingBuffers p1).
  { eapply (signatureBytes_inv restingBuffers); eauto.
    intros; eapply signatureByte_resting; eauto. }
  unfold handleSignatureEOF, restingBuffers in *.
  destruct (flag p1); try contradiction; unfold ok, fail; intros H;
    try discriminate.
  - destruct (length (key p1) =? 0)%nat; discriminate.
  - apply setKeyValue_ok in H. tauto.
  - inversion H; subst. exact H1.
Qed.

Lemma set_flag_twice (f g : Flag) (p : Parser) : set_flag g (set_flag f p) = set_flag g p.
Proof. reflexivity. Qed.

(** C4 (as amended).  The entry points set the state and nothing else: the
    state the last call left does not matter, but the buffers and the
    visited set are those of the last call.  So a second
    [ParseSignatureHeader] of a header that was just parsed with success,
    on the same parser, does not repeat the result: it fails with a
    duplicate-parameter error. *)
Theorem C4_second_parse_fails (p p1 : Parser) (h : string) (ph : ParsedHeader) :
  key p = [] -> value p = [] ->
  ParseSignatureHeader p h = (p1, (ph, None)) ->
  (forall f, ParseSignatureHeader (set_flag f p) h = (p1, (ph, None))) /\
  exists p2 k,
    ParseSignatureHeader p1 h = (p2, (zeroParsedHeader, Some (duplicateError k))).
Proof.
  intros Hk Hv H0. split.
  { intros f. unfold ParseSignatureHeader in *. rewrite set_flag_twice. exact H0. }
  revert H0. unfold ParseSignatureHeader, parseSignature.
  destruct (String.length h =? 0)%nat; [discriminate|].
  destruct (signatureLoop (set_flag FParam p) (list_ascii_of_string h))
    as [q [e|]] eqn:Hq; [discriminate|].
  intros H.
  assert (Hp1 : key p1 = key q /\ value p1 = value q /\ params p1 = params q).
  { destruct (length (headers (parsedHeader q)) =? 0)%nat;
      inversion H; subst; auto. }
  destruct Hp1 as (Hk1 & Hv1 & Hpar).
  assert (Hr : restingBuffers (set_flag FParam p)) by exact I.
  destruct (signatureLoop_buffers_empty _ _ _ Hr Hq) as [Hkq Hvq].
  destruct (replay_duplicate (list_ascii_of_string h)
              (set_flag FParam p) (set_flag FParam p1) q) as (p2 & k & E).
  - unfold sameScan. cbn [set_flag flag key value]. repeat split; congruence.
  - reflexivity.
  - exact Hq.
  - cbn [set_flag params]. rewrite Hpar. auto.
  - rewrite E. exists p2, k. reflexivity.
Qed.

Lemma C4_second_parse_fails_witness :
  exists p2 k,
    ParseSignatureHeader (fst (ParseSignatureHeader NewParser example_keyId))
      example_keyId =
    (p2, (zeroParsedHeader, Some (duplicateError k))).
Proof.
  apply (C4_second_parse_fails NewParser
           (fst (ParseSignatureHeader NewParser example_keyId)) example_keyId
           (fst (snd (ParseSignatureHeader NewParser example_keyId)))).
  - reflexivity.
  - reflexivity.
  - vm_compute. reflexivity.
Defined.

(** The same call twice on one parser, with two results. *)
Lemma C4_counterexample :
  snd (ParseSignatureHeader NewParser example_keyId) =
  ({| h_keyword := EmptyString; keyID := "Test"; signature := EmptyString;
      algorithm := EmptyString; created := TimeZero; expires := TimeZero;
      headers := ["(created)"] |}, None) /\
  snd (ParseSignatureHeader (fst (ParseSignatureHeader NewParser example_keyId))
         example_keyId) =
  (zeroParsedHeader, Some (duplicateError "keyId")).
Proof. vm_compute. split; reflexivity. Qed.

(** ** Base64 round trip *)

Lemma sextet_facts (n : N) :
  (n < 64)%N ->
  decodeSextet (encodeSextet n) = Some n /\
  beq (encodeSextet n) padChar = false /\
  isNewline (encodeSextet n) = false.
Proof.
  intros Hn.
  assert (Hall : forallb sextetOk (map N.of_nat (seq 0 64)) = true)
    by (vm_compute; reflexivity).
  rewrite forallb_forall in Hall.
  assert (Hin : In n (map N.of_nat (seq 0 64))).
  { rewrite <- (N2Nat.id n). apply in_map. apply in_seq. lia. }
  specialize (Hall n Hin). unfold sextetOk in Hall.
  apply andb_prop in Hall as [Hall H3]. apply andb_prop in Hall as [H1 H2].
  destruct (decodeSextet (encodeSextet n)) as [m|]; [|discriminate].
  apply N.eqb_eq in H1. subst m.
  repeat split; [now apply negb_true_iff in H2 | now apply negb_true_iff in H3].
Qed.

Lemma list_ind3 {A} (P : list A -> Prop) :
  P [] -> (forall a, P [a]) -> (forall a b, P [a; b]) ->
  (forall a b c l, P l -> P (a :: b :: c :: l)) ->
  forall l, P l.
Proof.
  intros H0 H1 H2 H3 l.
  enough (H : P l /\ (forall a, P (a :: l)) /\ (forall a b, P (a :: b :: l))) by tauto.
  induction l as [|x l (IH0 & IH1 & IH2)]; auto.
Qed.

Lemma byte_of_N_of_byte (a : byte) (n : N) : n = N_of_ascii a -> ascii_of_N n = a.
Proof. intros ->. apply ascii_N_embedding. Qed.

Lemma decodeQuanta_encodeBytes (src : list byte) :
  decodeQuanta (encodeBytes src) = Some src.
Proof.
  induction src as [|a|a b|a b c rest IH] using list_ind3.
  - reflexivity.
  - pose proof (N_ascii_bounded a) as Ha.
    cbn [encodeBytes decodeQuanta].
    destruct (sextet_facts (N_of_ascii a / 4)) as (-> & _ & _); [n_arith|].
    destruct (sextet_facts (N_of_ascii a mod 4 * 16)) as (-> & _ & _); [n_arith|].
    replace (beq padChar padChar) with true by reflexivity.
    do 2 f_equal. apply byte_of_N_of_byte. n_arith.
  - pose proof (N_ascii_bounded a) as Ha. pose proof (N_ascii_bounded b) as Hb.
    cbn [encodeBytes decodeQuanta].
    destruct (sextet_facts (N_of_ascii a / 4)) as (-> & _ & _); [n_arith|].
    destruct (sextet_facts (N_of_ascii a mod 4 * 16 + N_of_ascii b / 16))
      as (-> & _ & _); [n_arith|].
    destruct (sextet_facts (N_of_ascii b mod 16 * 4)) as (-> & -> & _); [n_arith|].
    replace (beq padChar padChar) with true by reflexivity.
    f_equal. f_equal; [|f_equal]; apply byte_of_N_of_byte; n_arith.
  - pose proof (N_ascii_bounded a) as Ha. pose proof (N_ascii_bounded b) as Hb.
    pose proof (N_ascii_bounded c) as Hc.
    cbn [encodeBytes decodeQuanta].
    destruct (sextet_facts (N_of_ascii a / 4)) as (-> & _ & _); [n_arith|].
    destruct (sextet_facts (N_of_ascii a mod 4 * 16 + N_of_ascii b / 16))
      as (-> & _ & _); [n_arith|].
    destruct (sextet_facts (N_of_ascii b mod 16 * 4 + N_of_ascii c / 64))
      as (-> & -> & _); [n_arith|].
    destruct (sextet_facts (N_of_ascii c mod 64)) as (-> & -> & _); [n_arith|].
    rewrite IH. cbn [option_map].
    f_equal. f_equal; [|f_equal; [|f_equal]]; apply byte_of_N_of_byte; n_arith.
Qed.

Lemma encodeBytes_no_newline (src : list byte) :
  List.filter (fun c => negb (isNewline c)) (encodeBytes src) = encodeBytes src.
Proof.
  induction src as [|a|a b|a b c rest IH] using list_ind3.
  - reflexivity.
  - pose proof (N_ascii_bounded a) as Ha.
    cbn [encodeBytes List.filter].
    destruct (sextet_facts (N_of_ascii a / 4)) as (_ & _ & ->); [n_arith|].
    destruct (sextet_facts (N_of_ascii a mod 4 * 16)) as (_ & _ & ->); [n_arith|].
    reflexivity.
  - pose proof (N_ascii_bounded a) as Ha. pose proof (N_ascii_bounded b) as Hb.
    cbn [encodeBytes List.filter].
    destruct (sextet_facts (N_of_ascii a / 4)) as (_ & _ & ->); [n_arith|].
    destruct (sextet_facts (N_of_ascii a mod 4 * 16 + N_of_ascii b / 16))
      as (_ & _ & ->); [n_arith|].
    destruct (sextet_facts (N_of_ascii b mod 16 * 4)) as (_ & _ & ->); [n_arith|].
    reflexivity.
  - pose proof (N_ascii_bounded a) as Ha. pose proof (N_ascii_bounded b) as Hb.
    pose proof (N_ascii_bounded c) as Hc.
    cbn [encodeBytes List.filter].
    destruct (sextet_facts (N_of_ascii a / 4)) as (_ & _ & ->); [n_arith|].
    destruct (sextet_facts (N_of_ascii a mod 4 * 16 + N_of_ascii b / 16))
      as (_ & _ & ->); [n_arith|].
    destruct (sextet_facts (N_of_ascii b mod 16 * 4 + N_of_ascii c / 64))
      as (_ & _ & ->); [n_arith|].
    destruct (sextet_facts (N_of_ascii c mod 64)) as (_ & _ & ->); [n_arith|].
    cbn [negb]. rewrite IH. reflexivity.
Qed.

(** Decoding what was encoded gives the bytes back. *)
Lemma DecodeString_EncodeToString (src : list byte) :
  DecodeString (EncodeToString src) = Some src.
Proof.
  unfold DecodeString, EncodeToString.
  rewrite list_ascii_of_string_of_list_ascii, encodeBytes_no_newline.
  apply decodeQuanta_encodeBytes.
Qed.

Lemma EncodeToString_nonempty (src : list byte) :
  src <> [] -> EncodeToString src <> EmptyString.
Proof.
  unfold EncodeToString.
  destruct src as [|a [|b [|c rest]]]; [contradiction| | |]; discriminate.
Qed.

(** ** Create and Verify *)

(** C9.  [Verify] answers "empty body" exactly for the requests whose body
    has no byte, whatever the registry and whatever the [Digest] header
    holds: a header that does not parse, an algorithm that is not
    registered or a digest that is not base64 do not come before it. *)
Theorem C9_empty_body (d : Digest) (r : Request) :
  Verify d r = Some (ErrDigest "empty body" None) <-> body r = [].
Proof.
  unfold Verify. split.
  - destruct (length (body r) =? 0)%nat eqn:Hl.
    + intros _. apply length_zero_nil. exact Hl.
    + destruct (snd (ParseDigestHeader NewParser (digestHeader r))) as [ph [e|]];
        [discriminate|].
      destruct (alg d !! algo ph) as [h|]; [|discriminate].
      destruct (DecodeString (digest ph)) as [sum|]; [|discriminate].
      destruct (hashVerify h (body r) sum); discriminate.
  - intros ->. reflexivity.
Qed.

(** The round trip for one registered algorithm whose name is a header
    name already in upper case and whose hash is not empty. *)
Lemma round_trip_registered (d : Digest) (name : string)
    (sum : list byte -> list byte) (b : list byte) (header : string) :
  alg d !! name = Some (hashAlgorithm name sum) ->
  forallb isAlgorithmByte (list_ascii_of_string name) = true ->
  ToUpper name = name ->
  sum b <> [] -> b <> [] ->
  Create d name {| digestHeader := header; body := b |} =
    inl (name ++ "=" ++ EncodeToString (sum b))%string /\
  Verify d {| digestHeader := (name ++ "=" ++ EncodeToString (sum b))%string;
              body := b |} = None.
Proof.
  intros Hreg Hname Hup Hsum Hb. split.
  - unfold Create. rewrite Hreg. reflexivity.
  - unfold Verify. cbn [body digestHeader].
    destruct (length b =? 0)%nat eqn:Hl.
    { apply length_zero_nil in Hl. contradiction. }
    rewrite (ParseDigestHeader_value NewParser name (EncodeToString (sum b)));
      try reflexivity; try exact Hname;
      [|apply EncodeToString_nonempty; exact Hsum].
    cbn [algo digest]. rewrite Hup, Hreg, DecodeString_EncodeToString.
    cbn [hashVerify hashAlgorithm]. unfold digestHashAlgorithmVerify.
    destruct (decide (sum b = sum b)); [reflexivity|contradiction].
Qed.

Lemma sized_nonempty (sum : list byte -> list byte) (n : nat) (b : list byte) :
  (forall data, length (sum data) = S n) -> sum b <> [].
Proof. intros H E. specialize (H b). rewrite E in H. discriminate. Qed.

Section RoundTrip.
Variables md5_sum sha256_sum sha512_sum : list byte -> list byte.
Hypothesis md5_size : forall data, length (md5_sum data) = 16%nat.
Hypothesis sha256_size : forall data, length (sha256_sum data) = 32%nat.
Hypothesis sha512_size : forall data, length (sha512_sum data) = 64%nat.

(** C8 (as amended).  For every body that is not empty and each of MD5,
    SHA-256 and SHA-512, [Create] returns a header value, and [Verify]
    accepts the request that carries this value and the same body. *)
Theorem C8_round_trip (name : string) (b : list byte) :
  In name ["MD5"; "SHA-256"; "SHA-512"] -> b <> [] ->
  exists value,
    Create (NewDigest md5_sum sha256_sum sha512_sum) name
      {| digestHeader := EmptyString; body := b |} = inl value /\
    Verify (NewDigest md5_sum sha256_sum sha512_sum)
      {| digestHeader := value; body := b |} = None.
Proof.
  intros Hin Hb. simpl in Hin.
  destruct Hin as [<- | [<- | [<- | []]]].
  - exists ("MD5" ++ "=" ++ EncodeToString (md5_sum b))%string.
    apply round_trip_registered; auto; try reflexivity.
    eapply sized_nonempty, md5_size.
  - exists ("SHA-256" ++ "=" ++ EncodeToString (sha256_sum b))%string.
    apply round_trip_registered; auto; try reflexivity.
    eapply sized_nonempty, sha256_size.
  - exists ("SHA-512" ++ "=" ++ EncodeToString (sha512_sum b))%string.
    apply round_trip_registered; auto; try reflexivity.
    eapply sized_nonempty, sha512_size.
Qed.
End RoundTrip.

Lemma C8_round_trip_witness :
  exists value,
    Create (NewDigest (zeroSum 16) (zeroSum 32) (zeroSum 64)) "SHA-256"
      {| digestHeader := EmptyString; body := list_ascii_of_string "test" |} = inl value /\
    Verify (NewDigest (zeroSum 16) (zeroSum 32) (zeroSum 64))
      {| digestHeader := value; body := list_ascii_of_string "test" |} = None.
Proof.
  apply (C8_round_trip (zeroSum 16) (zeroSum 32) (zeroSum 64)).
  - reflexivity.
  - reflexivity.
  - reflexivity.
  - simpl. auto.
  - discriminate.
Defined.

(** For the empty body the round trip fails: [Create] returns a value, and
    [Verify] refuses the request for its empty body. *)
Lemma C8_counterexample :
  exists b : list byte,
    forall (md5_sum sha256_sum sha512_sum : list byte -> list byte) (name : string),
      In name ["MD5"; "SHA-256"; "SHA-512"] ->
      exists value,
        Create (NewDigest md5_sum sha256_sum sha512_sum) name
          {| digestHeader := EmptyString; body := b |} = inl value /\
        Verify (NewDigest md5_sum sha256_sum sha512_sum)
          {| digestHeader := value; body := b |} = Some (ErrDigest "empty body" None).
Proof.
  exists []. intros md5_sum sha256_sum sha512_sum name Hin. simpl in Hin.
  destruct Hin as [<- | [<- | [<- | []]]]; eexists; split; reflexivity.
Qed.


(** * Further properties of the scanner *)

(** ** A header of well-formed parameters *)

Lemma signatureLoop_app (bs1 bs2 : list byte) (p p1 : Parser) :
  signatureBytes p bs1 = (p1, None) ->
  signatureLoop p (bs1 ++ bs2) = signatureLoop p1 bs2.
Proof.
  intros H. rewrite !signatureLoop_bytes, (signatureBytes_app _ _ _ _ H). reflexivity.
Qed.

Lemma getValueType_string (k : list byte) (p : Parser) :
  key p = k -> isIntKey k = false -> getValueType p = "string".
Proof. unfold getValueType, isIntKey. intros -> ->. reflexivity. Qed.

(** [setKeyValue] on a fresh name that takes a quoted value, with a value
    in the buffer. *)
Lemma setKeyValue_completed (p : Parser) :
  value p <> [] ->
  param_seen (params p) (string_of_list_ascii (key p)) = false ->
  isIntKey (key p) = false ->
  setKeyValue p = (completed p, None).
Proof.
  intros Hv Hs Hi. unfold setKeyValue, completed, storeParam.
  destruct (length (value p) =? 0)%nat eqn:Hl.
  { apply length_zero_nil in Hl. contradiction. }
  rewrite Hs. cbn [set_params key value parsedHeader].
  unfold isIntKey in Hi. apply orb_false_elim in Hi as [Hc He].
  rewrite Hc, He.
  repeat match goal with
         | |- context [String.eqb ?a ?b] => destruct (String.eqb a b)
         end; reflexivity.
Qed.

(** One well-formed parameter, read in state [param] with empty buffers. *)
Lemma scan_wellFormed (kv : list byte * list byte) (p : Parser) :
  wellFormed kv = true ->
  flag p = FParam -> key p = [] -> value p = [] ->
  param_seen (params p) (string_of_list_ascii (fst kv)) = false ->
  signatureBytes p (stringParam (fst kv) (snd kv)) =
  (completed (set_flag FDiv (atClosingQuote (fst kv) (snd kv) p)), None).
Proof.
  destruct kv as [k v]. unfold wellFormed. cbn [fst snd].
  intros Hw Hf Hk Hv Hs.
  apply andb_prop in Hw as [Hw Hne]. apply andb_prop in Hw as [Hw Hq].
  apply andb_prop in Hw as [Hl Hi]. apply negb_true_iff in Hi, Hne.
  rewrite <- (app_nil_r (stringParam k v)).
  rewrite scan_string_param; try assumption.
  - rewrite setKeyValue_completed; [reflexivity| | |].
    + cbn [atClosingQuote set_flag set_value value]. intros ->. discriminate.
    + exact Hs.
    + exact Hi.
  - apply (getValueType_string k); [reflexivity|exact Hi].
Qed.

Lemma string_of_list_ascii_inj (a b : list byte) :
  string_of_list_ascii a = string_of_list_ascii b -> a = b.
Proof.
  intros H. rewrite <- (list_ascii_of_string_of_list_ascii a),
    <- (list_ascii_of_string_of_list_ascii b). now rewrite H.
Qed.

Lemma stringParam_nonempty (k v : list byte) : stringParam k v <> [].
Proof. unfold stringParam. destruct k; discriminate. Qed.

Lemma renderParams_nonempty (l : list (list byte * list byte)) :
  l <> [] -> renderParams l <> [].
Proof.
  destruct l as [|[k v] l]; [congruence|]. intros _. cbn [renderParams fst snd].
  destruct l; [apply stringParam_nonempty|].
  unfold stringParam. destruct k; discriminate.
Qed.

(** The loop over the rendered parameters, from state [param] with empty
    buffers. *)
Lemma signatureLoop_params (l : list (list byte * list byte)) (p : Parser) :
  l <> [] ->
  forallb wellFormed l = true -> List.NoDup (map fst l) ->
  (forall k, In k (map fst l) -> param_seen (params p) (string_of_list_ascii k) = false) ->
  flag p = FParam -> key p = [] -> value p = [] ->
  exists p',
    signatureLoop p (renderParams l) = (p', None) /\
    parsedHeader p' = storeAll l (parsedHeader p) /\
    key p' = [] /\ value p' = [] /\ flag p' = FDiv /\
    (forall k, param_seen (params p') (string_of_list_ascii k) = true <->
               In k (map fst l) \/ param_seen (params p) (string_of_list_ascii k) = true).
Proof.
  revert p. induction l as [|kv l IH]; intros p Hne Hw Hnd Hfresh Hf Hk Hv;
    [congruence|].
  cbn [forallb] in Hw. apply andb_prop in Hw as [Hkv Hw].
  cbn [map] in Hnd, Hfresh. inversion Hnd as [|? ? Hnotin Hnd']; subst.
  assert (Hs : param_seen (params p) (string_of_list_ascii (fst kv)) = false)
    by (apply Hfresh; left; reflexivity).
  pose proof (scan_wellFormed kv p Hkv Hf Hk Hv Hs) as Hscan.
  set (q := completed (set_flag FDiv (atClosingQuote (fst kv) (snd kv) p))) in *.
  assert (Hq : parsedHeader q =
               storeParam (string_of_list_ascii (fst kv))
                 (string_of_list_ascii (snd kv)) (parsedHeader p)) by reflexivity.
  assert (Hqp : forall k, param_seen (params q) (string_of_list_ascii k) =
                          if String.eqb (string_of_list_ascii (fst kv)) (string_of_list_ascii k)
                          then true else param_seen (params p) (string_of_list_ascii k)).
  { intros k. unfold q, completed.
    cbn [atClosingQuote set_flag set_value set_key set_params set_parsedHeader params key].
    apply param_seen_insert. }
  cbn [renderParams]. destruct l as [|kv' l'].
  - exists q. rewrite <- (app_nil_r (stringParam _ _)).
    rewrite (signatureLoop_app _ _ _ _ Hscan).
    repeat split; try reflexivity.
    + intros H. rewrite Hqp in H.
      destruct (String.eqb_spec (string_of_list_ascii (fst kv)) (string_of_list_ascii k))
        as [E | N]; [left; left; now apply string_of_list_ascii_inj|right; exact H].
    + intros [[E | []] | H]; rewrite Hqp.
      * subst k. now rewrite String.eqb_refl.
      * destruct (String.eqb _ _); auto.
  - rewrite (signatureLoop_app _ _ _ _ Hscan).
    cbn [signatureLoop]. unfold signatureByte at 1.
    replace (flag q) with FDiv by reflexivity. unfold parseDiv.
    replace (beq div div) with true by reflexivity. cbn [ok].
    destruct (IH (set_flag FParam q)) as (p' & Hl & Hh & Hk' & Hv' & Hf' & Hp');
      try assumption; try reflexivity; try discriminate.
    + intros k Hin. cbn [set_flag params]. rewrite Hqp.
      destruct (String.eqb_spec (string_of_list_ascii (fst kv)) (string_of_list_ascii k))
        as [E | N].
      * apply string_of_list_ascii_inj in E. subst k. exfalso. exact (Hnotin Hin).
      * apply Hfresh. right. exact Hin.
    + exists p'. split; [exact Hl|]. split.
      { rewrite Hh. cbn [set_flag parsedHeader]. rewrite Hq. reflexivity. }
      repeat split; try assumption.
      * intros H. apply Hp' in H as [H | H]; [left; right; exact H|].
        cbn [set_flag params] in H. rewrite Hqp in H.
        destruct (String.eqb_spec (string_of_list_ascii (fst kv)) (string_of_list_ascii k))
          as [E | N]; [left; left; now apply string_of_list_ascii_inj|right; exact H].
      * intros H. apply Hp'. cbn [set_flag params]. rewrite Hqp.
        destruct H as [[E | H] | H].
        -- right. subst k. now rewrite String.eqb_refl.
        -- left. exact H.
        -- right. destruct (String.eqb _ _); auto.
Qed.



(** ** Values are returned as written, unknown names are dropped *)

Lemma storeAll_cons (kv : list byte * list byte) (l : list (list byte * list byte))
    (h : ParsedHeader) :
  storeAll (kv :: l) h =
  storeAll l (storeParam (string_of_list_ascii (fst kv)) (string_of_list_ascii (snd kv)) h).
Proof. reflexivity. Qed.

(** A field that only the name [name] writes holds the value written under
    [name], when the names are distinct. *)
Lemma storeAll_field (get : ParsedHeader -> string) (name : list byte) :
  (forall k v h, get (storeParam (string_of_list_ascii k) v h) =
                 if String.eqb (string_of_list_ascii k) (string_of_list_ascii name)
                 then v else get h) ->
  forall l h v, List.NoDup (map fst l) -> In (name, v) l ->
                get (storeAll l h) = string_of_list_ascii v.
Proof.
  intros Hget.
  assert (Hkeep : forall l h, ~ In name (map fst l) -> get (storeAll l h) = get h).
  { induction l as [|kv l IH]; intros h Hn; [reflexivity|].
    rewrite storeAll_cons, IH by (intros H; apply Hn; right; exact H).
    rewrite Hget.
    destruct (String.eqb_spec (string_of_list_ascii (fst kv)) (string_of_list_ascii name))
      as [E | N]; [|reflexivity].
    apply string_of_list_ascii_inj in E. exfalso. apply Hn. left. exact E. }
  induction l as [|kv l IH]; intros h v Hnd Hin; [destruct Hin|].
  cbn [map] in Hnd. inversion Hnd as [|? ? Hnotin Hnd']; subst.
  rewrite storeAll_cons. destruct Hin as [E | Hin].
  - subst kv. cbn [fst snd] in *. rewrite Hkeep by exact Hnotin.
    rewrite Hget. now rewrite String.eqb_refl.
  - apply IH; assumption.
Qed.

Lemma keyID_storeParam (k : list byte) (v : string) (h : ParsedHeader) :
  keyID (storeParam (string_of_list_ascii k) v h) =
  if String.eqb (string_of_list_ascii k) (string_of_list_ascii (list_ascii_of_string "keyId"))
  then v else keyID h.
Proof.
  unfold storeParam. cbn [list_ascii_of_string string_of_list_ascii].
  repeat match goal with
         | |- context [String.eqb ?a ?b] => destruct (String.eqb_spec a b)
         end; try reflexivity; congruence.
Qed.

Lemma signature_storeParam (k : list byte) (v : string) (h : ParsedHeader) :
  signature (storeParam (string_of_list_ascii k) v h) =
  if String.eqb (string_of_list_ascii k) (string_of_list_ascii (list_ascii_of_string "signature"))
  then v else signature h.
Proof.
  unfold storeParam. cbn [list_ascii_of_string string_of_list_ascii].
  repeat match goal with
         | |- context [String.eqb ?a ?b] => destruct (String.eqb_spec a b)
         end; try reflexivity; congruence.
Qed.

Lemma algorithm_storeParam (k : list byte) (v : string) (h : ParsedHeader) :
  algorithm (storeParam (string_of_list_ascii k) v h) =
  if String.eqb (string_of_list_ascii k) (string_of_list_ascii (list_ascii_of_string "algorithm"))
  then v else algorithm h.
Proof.
  unfold storeParam. cbn [list_ascii_of_string string_of_list_ascii].
  repeat match goal with
         | |- context [String.eqb ?a ?b] => destruct (String.eqb_spec a b)
         end; try reflexivity; congruence.
Qed.

Lemma withDefaultHeaders_fields (h : ParsedHeader) :
  keyID (withDefaultHeaders h) = keyID h /\
  signature (withDefaultHeaders h) = signature h /\
  algorithm (withDefaultHeaders h) = algorithm h.
Proof. unfold withDefaultHeaders. destruct (_ =? _)%nat; auto. Qed.

(** X2.  In such a header the values of [keyId], [signature] and
    [algorithm] come back byte for byte, wherever the parameter stands
    among the others. *)
Theorem X2_values_verbatim (l : list (list byte * list byte)) (p : Parser) (v : list byte) :
  forallb wellFormed l = true -> List.NoDup (map fst l) ->
  (forall k, In k (map fst l) -> param_seen (params p) (string_of_list_ascii k) = false) ->
  key p = [] -> value p = [] ->
  let ph := fst (snd (ParseSignatureHeader p (string_of_list_ascii (renderParams l)))) in
  (In (list_ascii_of_string "keyId", v) l -> keyID ph = string_of_list_ascii v) /\
  (In (list_ascii_of_string "signature", v) l -> signature ph = string_of_list_ascii v) /\
  (In (list_ascii_of_string "algorithm", v) l -> algorithm ph = string_of_list_ascii v).
Proof.
  intros Hw Hnd Hfresh Hk Hv ph.
  assert (Hph : l <> [] -> ph = withDefaultHeaders (storeAll l (parsedHeader p))).
  { intros Hne. unfold ph.
    destruct (signatureLoop_params l (set_flag FParam p))
      as (p' & Hl & Hh & _); try assumption; try reflexivity.
    unfold ParseSignatureHeader, parseSignature.
    rewrite string_of_list_length by (apply renderParams_nonempty; exact Hne).
    rewrite list_ascii_of_string_of_list_ascii, Hl.
    cbn [set_flag parsedHeader] in Hh. unfold withDefaultHeaders. rewrite <- Hh.
    destruct (length (headers (parsedHeader p')) =? 0)%nat; reflexivity. }
  destruct (withDefaultHeaders_fields (storeAll l (parsedHeader p))) as (E1 & E2 & E3).
  repeat split; intros Hin;
    (rewrite Hph by (intros ->; destruct Hin)).
  - rewrite E1. apply (storeAll_field keyID _ keyID_storeParam); assumption.
  - rewrite E2. apply (storeAll_field signature _ signature_storeParam); assumption.
  - rewrite E3. apply (storeAll_field algorithm _ algorithm_storeParam); assumption.
Qed.

Lemma X2_values_verbatim_witness :
  let ph := fst (snd (ParseSignatureHeader NewParser
                        (string_of_list_ascii (renderParams example_params)))) in
  keyID ph = "Test" /\ signature ph = "c2ln" /\ algorithm ph = "rsa-sha256".
Proof.
  destruct (X2_values_verbatim example_params NewParser (list_ascii_of_string "Test"))
    as (H1 & _ & _); try reflexivity.
  { repeat constructor; simpl; intuition discriminate. }
  destruct (X2_values_verbatim example_params NewParser (list_ascii_of_string "c2ln"))
    as (_ & H2 & _); try reflexivity.
  { repeat constructor; simpl; intuition discriminate. }
  destruct (X2_values_verbatim example_params NewParser (list_ascii_of_string "rsa-sha256"))
    as (_ & _ & H3); try reflexivity.
  { repeat constructor; simpl; intuition discriminate. }
  intros ph. split; [|split].
  - apply H1. simpl. auto.
  - apply H2. simpl. auto 6.
  - apply H3. simpl. auto.
Defined.

Lemma storeParam_unknown (k : list byte) (v : string) (h : ParsedHeader) :
  isStoredKey k = false -> storeParam (string_of_list_ascii k) v h = h.
Proof.
  unfold isStoredKey, storeParam. intros H.
  repeat (apply orb_false_elim in H as [H ?]).
  repeat match goal with E : String.eqb _ _ = false |- _ => rewrite E; clear E end.
  reflexivity.
Qed.

(** X3.  Parameters with names the parser does not know are read and
    dropped: a header that holds only such parameters parses with success
    and returns the fields the parser had, with the default header list. *)
Theorem X3_unknown_params_dropped (l : list (list byte * list byte)) (p : Parser) :
  l <> [] ->
  forallb wellFormed l = true -> List.NoDup (map fst l) ->
  forallb (fun kv => negb (isStoredKey (fst kv))) l = true ->
  (forall k, In k (map fst l) -> param_seen (params p) (string_of_list_ascii k) = false) ->
  key p = [] -> value p = [] ->
  snd (ParseSignatureHeader p (string_of_list_ascii (renderParams l))) =
  (withDefaultHeaders (parsedHeader p), None).
Proof.
  intros Hne Hw Hnd Hu Hfresh Hk Hv.
  destruct (signatureLoop_params l (set_flag FParam p))
    as (p' & Hl & Hh & _); try assumption; try reflexivity.
  assert (Hsame : forall l' h,
             forallb (fun kv => negb (isStoredKey (fst kv))) l' = true ->
             storeAll l' h = h).
  { induction l' as [|kv l' IH]; intros h H; [reflexivity|].
    cbn [forallb] in H. apply andb_prop in H as [H1 H2].
    rewrite storeAll_cons, storeParam_unknown by (now apply negb_true_iff).
    apply IH. exact H2. }
  rewrite Hsame in Hh by exact Hu. cbn [set_flag parsedHeader] in Hh.
  unfold ParseSignatureHeader, parseSignature.
  rewrite string_of_list_length by (apply renderParams_nonempty; exact Hne).
  rewrite list_ascii_of_string_of_list_ascii, Hl.
  unfold withDefaultHeaders. rewrite <- Hh.
  destruct (length (headers (parsedHeader p')) =? 0)%nat; reflexivity.
Qed.

Lemma X3_unknown_params_dropped_witness :
  snd (ParseSignatureHeader NewParser
         (string_of_list_ascii (renderParams example_unknown_params))) =
  (withDefaultHeaders zeroParsedHeader, None).
Proof.
  apply (X3_unknown_params_dropped example_unknown_params NewParser).
  - discriminate.
  - vm_compute. reflexivity.
  - repeat constructor; simpl; intuition discriminate.
  - vm_compute. reflexivity.
  - intros k _. reflexivity.
  - reflexivity.
  - reflexivity.
Defined.

(** ** An integer value in range *)

(** [ParseInt(s, 10, 32)] on digits that denote at most [2^31 - 1]. *)
Lemma ParseInt32_digits (v : list byte) :
  forallb isDigit v = true -> v <> [] -> (decimal v <= 2147483647)%Z ->
  ParseInt32 (string_of_list_ascii v) = (decimal v, None).
Proof.
  intros Hd Hne Hle. unfold ParseInt32.
  rewrite list_ascii_of_string_of_list_ascii.
  destruct v as [|c v]; [congruence|].
  pose proof Hd as Hd'. simpl in Hd'. apply andb_prop in Hd' as [Hc _].
  destruct (digit_not_sign c Hc) as [-> ->]. cbn [orb negb andb].
  unfold ParseUint32.
  pose proof (parseUintLoop_digits (c :: v) 0 Hd ltac:(lia)) as H.
  fold (decimal (c :: v)) in H.
  destruct (parseUintLoop 0 (c :: v)) as [un | []]; try contradiction; [|lia].
  subst un. replace (decimal (c :: v) >=? 2147483648)%Z with false by lia.
  reflexivity.
Qed.

Lemma setKeyValue_int_ok (p : Parser) :
  string_of_list_ascii (key p) = "created" \/
  string_of_list_ascii (key p) = "expires" ->
  param_seen (params p) (string_of_list_ascii (key p)) = false ->
  forallb isDigit (value p) = true -> value p <> [] ->
  (decimal (value p) <= 2147483647)%Z ->
  exists p',
    setKeyValue p = (p', None) /\ flag p' = flag p /\
    (string_of_list_ascii (key p) = "created" ->
     created (parsedHeader p') = Unix (decimal (value p))) /\
    (string_of_list_ascii (key p) = "expires" ->
     expires (parsedHeader p') = Unix (decimal (value p))).
Proof.
  intros Hk Hs Hd Hne Hle. unfold setKeyValue.
  destruct (length (value p) =? 0)%nat eqn:Hl.
  { apply length_zero_nil in Hl. contradiction. }
  rewrite Hs. cbn [set_params value key parsedHeader].
  unfold intToTime. rewrite (ParseInt32_digits _ Hd Hne Hle).
  destruct Hk as [Hk | Hk]; rewrite Hk; cbn [String.eqb Ascii.eqb Bool.eqb];
    eexists; (split; [reflexivity|]); (split; [reflexivity|]); split; intros E;
    solve [reflexivity | discriminate E].
Qed.

(** X4.  The scanner stands at the start of the value of [created] (resp.
    [expires]), seen for the first time.  A string [v] of digits that
    denotes at most 2147483647, followed by the end of the input, parses
    with success and the time returned is [time.Unix(n, 0)] for the number
    [n] that [v] denotes; followed by a space or a comma, the same time is
    stored and the scan goes on. *)
Theorem X4_int_in_range (p p1 : Parser) (pre v : list byte) :
  signatureBytes p pre = (p1, None) ->
  flag p1 = FIntValue -> value p1 = [] ->
  string_of_list_ascii (key p1) = "created" \/
  string_of_list_ascii (key p1) = "expires" ->
  param_seen (params p1) (string_of_list_ascii (key p1)) = false ->
  forallb isDigit v = true -> v <> [] -> (decimal v <= 2147483647)%Z ->
  (exists p2 ph,
     parseSignature p (string_of_list_ascii (pre ++ v)) = (p2, (ph, None)) /\
     (string_of_list_ascii (key p1) = "created" -> created ph = Unix (decimal v)) /\
     (string_of_list_ascii (key p1) = "expires" -> expires ph = Unix (decimal v))) /\
  (forall c, completes p1 c = true ->
     exists p2,
       signatureBytes p (pre ++ v ++ [c]) = (p2, None) /\
       (string_of_list_ascii (key p1) = "created" ->
        created (parsedHeader p2) = Unix (decimal v)) /\
       (string_of_list_ascii (key p1) = "expires" ->
        expires (parsedHeader p2) = Unix (decimal v))).
Proof.
  intros Hb Hf Hv Hk Hs Hd Hne Hle.
  set (q := set_value v p1).
  assert (Hq : signatureBytes p (pre ++ v) = (q, None)).
  { rewrite (signatureBytes_app _ _ _ _ Hb).
    rewrite intValue_digits by assumption. rewrite Hv. reflexivity. }
  assert (Hfin : forall f, exists p2,
             setKeyValue (set_flag f q) = (p2, None) /\ flag p2 = f /\
             (string_of_list_ascii (key p1) = "created" ->
              created (parsedHeader p2) = Unix (decimal v)) /\
             (string_of_list_ascii (key p1) = "expires" ->
              expires (parsedHeader p2) = Unix (decimal v))).
  { intros f. apply (setKeyValue_int_ok (set_flag f q)); assumption. }
  split.
  - destruct (Hfin FIntValue) as (p2 & E & _ & H1 & H2).
    replace (set_flag FIntValue q) with q in E
      by (rewrite <- Hf at 1; symmetry; apply (set_flag_id q)).
    unfold parseSignature.
    rewrite string_of_list_length by (destruct pre, v; try discriminate; congruence).
    rewrite list_ascii_of_string_of_list_ascii.
    rewrite signatureLoop_bytes, Hq. unfold handleSignatureEOF.
    replace (flag q) with FIntValue by (symmetry; exact Hf).
    rewrite E.
    destruct (length (headers (parsedHeader p2)) =? 0)%nat;
      do 2 eexists; (split; [reflexivity|]); split; assumption.
  - intros c Hc. unfold completes in Hc. rewrite Hf in Hc.
    rewrite app_assoc, (signatureBytes_app _ _ _ _ Hq).
    cbn [signatureBytes]. unfold signatureByte.
    replace (flag q) with FIntValue by (symmetry; exact Hf).
    unfold parseIntValue.
    replace (length (value q) =? 0)%nat with false
      by (symmetry; destruct v; [congruence|reflexivity]).
    apply orb_prop in Hc as [Hc | Hc]; apply beq_eq in Hc as ->;
      cbn [isDigit ble beq Ascii.eqb Bool.eqb space div from0 to9 N_of_ascii
             N.leb N.compare Pos.compare Pos.compare_cont andb].
    + destruct (Hfin FDiv) as (p2 & E & _ & H1 & H2). rewrite E. exists p2. auto.
    + destruct (Hfin FParam) as (p2 & E & _ & H1 & H2). rewrite E. exists p2. auto.
Qed.

Lemma X4_int_in_range_witness :
  exists p2 ph,
    parseSignature (set_flag FParam NewParser) "created=1402170695" = (p2, (ph, None)) /\
    created ph = Unix 1402170695.
Proof.
  destruct (X4_int_in_range (set_flag FParam NewParser)
              (fst (signatureBytes (set_flag FParam NewParser) example_created_prefix))
              example_created_prefix example_created_value)
    as [(p2 & ph & H & Hc & _) _].
  - vm_compute. reflexivity.
  - vm_compute. reflexivity.
  - vm_compute. reflexivity.
  - left. vm_compute. reflexivity.
  - vm_compute. reflexivity.
  - vm_compute. reflexivity.
  - discriminate.
  - vm_compute. discriminate.
  - exists p2, ph. split; [exact H|]. apply Hc. vm_compute. reflexivity.
Defined.

(** ** Bytes the grammar refuses *)

Lemma parse_error_at (p p1 : Parser) (pre rest : list byte) (c : byte) (e : ParserError) :
  signatureBytes p pre = (p1, None) ->
  snd (signatureByte p1 c) = Some e ->
  snd (parseSignature p (string_of_list_ascii (pre ++ c :: rest))) =
  (zeroParsedHeader, Some e).
Proof.
  intros Hb Hc. unfold parseSignature.
  rewrite string_of_list_length by (destruct pre; discriminate).
  rewrite list_ascii_of_string_of_list_ascii.
  rewrite signatureLoop_bytes, (signatureBytes_app _ _ _ _ Hb).
  cbn [signatureBytes]. destruct (signatureByte p1 c) as [p2 [e'|]]; [|discriminate].
  cbn [snd] in Hc. injection Hc as ->. reflexivity.
Qed.

(** X5.  A name is made of letters: after any letters, a byte that is not
    a letter, [=] or a space ends [ParseSignatureHeader] with the error
    "found '<byte>' ... unsupported symbol in key". *)
Theorem X5_key_symbol_refused (p : Parser) (k rest : list byte) (c : byte) :
  forallb isLetter k = true ->
  isLetter c = false -> beq c equal = false -> beq c space = false ->
  snd (ParseSignatureHeader p (string_of_list_ascii (k ++ c :: rest))) =
  (zeroParsedHeader, Some (foundError c "unsupported symbol in key")).
Proof.
  intros Hk Hl He Hs. unfold ParseSignatureHeader.
  apply (parse_error_at _ (set_key (key p ++ k) (set_flag FParam p))).
  - rewrite <- (app_nil_r k) at 1. rewrite key_letters by (auto; reflexivity).
    reflexivity.
  - unfold signatureByte. cbn [set_key set_flag flag]. unfold parseKey.
    rewrite Hl, He, Hs. reflexivity.
Qed.

Lemma X5_key_symbol_refused_witness :
  snd (ParseSignatureHeader NewParser "key-Id=1") =
  (zeroParsedHeader, Some (foundError "-"%char "unsupported symbol in key")).
Proof.
  apply (X5_key_symbol_refused NewParser (list_ascii_of_string "key")
           (list_ascii_of_string "Id=1") "-"%char); reflexivity.
Defined.

(** A state that a space leaves as it is skips a run of spaces. *)
Lemma skip_spaces (sp rest : list byte) (p : Parser) :
  forallb isSpace sp = true ->
  signatureByte p space = (p, None) ->
  signatureBytes p (sp ++ rest) = signatureBytes p rest.
Proof.
  intros Hsp Hstep. induction sp as [|c sp IH]; [reflexivity|].
  simpl in Hsp. apply andb_prop in Hsp as [Hc Hsp].
  apply beq_eq in Hc. subst c. cbn [app signatureBytes]. rewrite Hstep.
  apply IH. exact Hsp.
Qed.

Lemma div_space (p : Parser) : flag p = FDiv -> signatureByte p space = (p, None).
Proof. intros Hf. unfold signatureByte. rewrite Hf. reflexivity. Qed.

(** X6.  Parameters are separated by a comma: after a well-formed
    parameter and any spaces, a byte that is neither a comma nor a space
    ends the parse with "found '<byte>' ... unsupported symbol, expected
    ',' or space symbol". *)
Theorem X6_missing_comma_refused (kv : list byte * list byte) (p : Parser)
    (sp rest : list byte) (c : byte) :
  wellFormed kv = true ->
  key p = [] -> value p = [] ->
  param_seen (params p) (string_of_list_ascii (fst kv)) = false ->
  forallb isSpace sp = true ->
  beq c div = false -> beq c space = false ->
  snd (ParseSignatureHeader p
         (string_of_list_ascii ((stringParam (fst kv) (snd kv) ++ sp) ++ c :: rest))) =
  (zeroParsedHeader,
   Some (foundError c "unsupported symbol, expected ',' or space symbol")).
Proof.
  intros Hw Hk Hv Hs Hsp Hd Hc. unfold ParseSignatureHeader.
  pose proof (scan_wellFormed kv (set_flag FParam p) Hw eq_refl Hk Hv Hs) as Hscan.
  set (q := completed _) in Hscan.
  apply (parse_error_at _ q).
  - rewrite (signatureBytes_app _ _ _ _ Hscan).
    rewrite <- (app_nil_r sp). apply skip_spaces; [exact Hsp|].
    apply div_space. reflexivity.
  - unfold signatureByte. replace (flag q) with FDiv by reflexivity.
    unfold parseDiv. rewrite Hd, Hc. reflexivity.
Qed.

Lemma X6_missing_comma_refused_witness :
  snd (ParseSignatureHeader NewParser
         (string_of_list_ascii
            ((stringParam (list_ascii_of_string "keyId") (list_ascii_of_string "Test")
              ++ [space]) ++ list_ascii_of_string "algorithm"))) =
  (zeroParsedHeader,
   Some (foundError "a"%char "unsupported symbol, expected ',' or space symbol")).
Proof.
  apply (X6_missing_comma_refused
           (list_ascii_of_string "keyId", list_ascii_of_string "Test") NewParser
           [space] (list_ascii_of_string "lgorithm") "a"%char); reflexivity.
Defined.

(** X7.  A quoted value must hold a byte: [k=""] for a name that takes a
    quoted value ends the parse with "empty value for key '<k>'" when the
    closing quote is read. *)
Theorem X7_empty_value_refused (p : Parser) (k rest : list byte) :
  forallb isLetter k = true -> isIntKey k = false ->
  key p = [] -> value p = [] ->
  snd (ParseSignatureHeader p (string_of_list_ascii (stringParam k [] ++ rest))) =
  (zeroParsedHeader, Some (emptyValueError (string_of_list_ascii k))).
Proof.
  intros Hk Hi Hkey Hval. unfold ParseSignatureHeader, parseSignature.
  rewrite string_of_list_length by (unfold stringParam; destruct k; discriminate).
  rewrite list_ascii_of_string_of_list_ascii, signatureLoop_bytes.
  rewrite scan_string_param; try assumption; try reflexivity.
  apply (getValueType_string k); [reflexivity|exact Hi].
Qed.

Lemma X7_empty_value_refused_witness :
  snd (ParseSignatureHeader NewParser
         (string_of_list_ascii (stringParam (list_ascii_of_string "keyId") [] ++ []))) =
  (zeroParsedHeader, Some (emptyValueError "keyId")).
Proof.
  apply (X7_empty_value_refused NewParser (list_ascii_of_string "keyId") []);
    reflexivity.
Defined.

(** ** Optional spaces *)

Lemma param_space_empty_key (p : Parser) :
  flag p = FParam -> key p = [] -> signatureByte p space = (p, None).
Proof.
  intros Hf Hk. unfold signatureByte. rewrite Hf. unfold parseKey. rewrite Hk.
  reflexivity.
Qed.

Lemma equal_space (p : Parser) : flag p = FEqual -> signatureByte p space = (p, None).
Proof. intros Hf. unfold signatureByte. rewrite Hf. reflexivity. Qed.

Lemma quote_space (p : Parser) : flag p = FQuote -> signatureByte p space = (p, None).
Proof. intros Hf. unfold signatureByte. rewrite Hf. reflexivity. Qed.

Lemma enterValue_quote (p : Parser) :
  isIntKey (key p) = false -> enterValue p = set_flag FQuote p.
Proof.
  intros Hi. unfold enterValue. rewrite (getValueType_string (key p) p eq_refl Hi).
  reflexivity.
Qed.

(** The name, the spaces after it and the [=]. *)
Lemma scan_name_equal (k sp1 rest : list byte) (p : Parser) :
  forallb isLetter k = true -> forallb isSpace sp1 = true ->
  isIntKey k = false -> flag p = FParam -> key p = [] ->
  signatureBytes p (k ++ sp1 ++ equal :: rest) =
  signatureBytes (set_flag FQuote (set_key k p)) rest.
Proof.
  intros Hk Hsp Hi Hf Hkey.
  rewrite key_letters by assumption. rewrite Hkey. cbn [app].
  set (q := set_key k p).
  assert (Hq : isIntKey (key q) = false) by exact Hi.
  assert (Heq : signatureBytes q (equal :: rest) =
                signatureBytes (set_flag FQuote q) rest).
  { cbn [signatureBytes]. unfold signatureByte at 1.
    replace (flag q) with FParam by (symmetry; exact Hf). unfold parseKey.
    replace (isLetter equal) with false by reflexivity.
    replace (beq equal equal) with true by reflexivity. cbn [ok].
    rewrite (enterValue_quote q Hq). reflexivity. }
  destruct k as [|a k].
  - rewrite (skip_spaces sp1); [exact Heq|exact Hsp|].
    apply param_space_empty_key; [exact Hf|reflexivity].
  - destruct sp1 as [|c sp1]; [exact Heq|].
    simpl in Hsp. apply andb_prop in Hsp as [Hc Hsp]. apply beq_eq in Hc. subst c.
    cbn [app signatureBytes]. unfold signatureByte at 1.
    replace (flag q) with FParam by (symmetry; exact Hf). unfold parseKey.
    replace (isLetter space) with false by reflexivity.
    replace (beq space equal) with false by reflexivity.
    replace (beq space space) with true by reflexivity.
    cbn [q set_key key length Nat.ltb Nat.leb andb ok].
    rewrite (skip_spaces sp1) by (auto using equal_space).
    cbn [signatureBytes]. unfold signatureByte at 1. cbn [set_flag flag].
    unfold parseEqual. replace (beq equal equal) with true by reflexivity. cbn [ok].
    rewrite (enterValue_quote (set_flag FEqual q)) by exact Hi.
    reflexivity.
Qed.

(** A parameter with spaces, up to the call of [setKeyValue] and past the
    spaces that follow the value. *)
Lemma scan_spaced_param (sp0 k sp1 sp2 v sp3 rest : list byte) (p : Parser) :
  forallb isSpace sp0 = true -> forallb isSpace sp1 = true ->
  forallb isSpace sp2 = true -> forallb isSpace sp3 = true ->
  forallb isLetter k = true -> isIntKey k = false -> forallb notQuote v = true ->
  flag p = FParam -> key p = [] ->
  signatureBytes p (spacedParam sp0 k sp1 sp2 v sp3 ++ rest) =
  match setKeyValue (set_flag FDiv (set_value (value p ++ v)
                                      (set_flag FStringValue (set_key k p)))) with
  | (p', Some e) => (p', Some e)
  | (p', None) => signatureBytes p' rest
  end.
Proof.
  intros H0 H1 H2 H3 Hk Hi Hv Hf Hkey.
  replace (spacedParam sp0 k sp1 sp2 v sp3 ++ rest)
    with (sp0 ++ k ++ sp1 ++ equal :: sp2 ++ quote :: v ++ quote :: sp3 ++ rest)
    by (unfold spacedParam;
        repeat (rewrite <- app_assoc || rewrite <- app_comm_cons); reflexivity).
  rewrite (skip_spaces sp0) by (auto using param_space_empty_key).
  rewrite scan_name_equal by assumption.
  rewrite (skip_spaces sp2) by (auto using quote_space).
  cbn [signatureBytes]. unfold signatureByte at 1. cbn [set_flag set_key flag].
  unfold parseQuote. replace (beq quote quote) with true by reflexivity. cbn [ok].
  rewrite string_value_bytes by (assumption || reflexivity).
  cbn [set_flag set_key value app signatureBytes].
  unfold signatureByte at 1. cbn [set_flag set_key set_value flag].
  unfold parseStringValue.
  replace (negb (beq quote quote)) with false by reflexivity.
  replace (beq quote quote) with true by reflexivity.
  destruct (setKeyValue _) as [p' [e|]] eqn:Hs; [reflexivity|].
  apply skip_spaces; [exact H3|]. apply div_space.
  apply setKeyValue_flag in Hs. rewrite Hs. reflexivity.
Qed.

(** X8.  Spaces before a name, around the [=] and after the closing quote
    do not count: a header that starts with such a spaced parameter parses
    as the header with the parameter written [k="v"] does, to the same
    result and the same parser. *)
Theorem X8_optional_spaces (p : Parser) (sp0 k sp1 sp2 v sp3 rest : list byte) :
  forallb isSpace sp0 = true -> forallb isSpace sp1 = true ->
  forallb isSpace sp2 = true -> forallb isSpace sp3 = true ->
  forallb isLetter k = true -> isIntKey k = false -> forallb notQuote v = true ->
  key p = [] ->
  ParseSignatureHeader p (string_of_list_ascii (spacedParam sp0 k sp1 sp2 v sp3 ++ rest)) =
  ParseSignatureHeader p (string_of_list_ascii (stringParam k v ++ rest)).
Proof.
  intros H0 H1 H2 H3 Hk Hi Hv Hkey.
  unfold ParseSignatureHeader, parseSignature.
  rewrite !string_of_list_length
    by (unfold spacedParam, stringParam; destruct sp0, k, sp1; discriminate).
  rewrite !list_ascii_of_string_of_list_ascii, !signatureLoop_bytes.
  rewrite (scan_spaced_param sp0 k sp1 sp2 v sp3) by (assumption || reflexivity).
  change (stringParam k v) with (spacedParam [] k [] [] v []).
  rewrite (scan_spaced_param [] k [] [] v []) by (assumption || reflexivity).
  reflexivity.
Qed.

Lemma X8_optional_spaces_witness :
  ParseSignatureHeader NewParser (string_of_list_ascii (example_spaced ++ [])) =
  ParseSignatureHeader NewParser
    (string_of_list_ascii
       (stringParam (list_ascii_of_string "keyId") (list_ascii_of_string "Test") ++ [])).
Proof.
  apply (X8_optional_spaces NewParser [space] (list_ascii_of_string "keyId") [space]
           [space; space] (list_ascii_of_string "Test") [space] []); reflexivity.
Defined.

(** ** The required fields *)

(** What a successful [setKeyValue] did to [keyId] and [signature]. *)
Lemma setKeyValue_required (p p' : Parser) :
  setKeyValue p = (p', None) ->
  let k := string_of_list_ascii (key p) in
  keyID (parsedHeader p') =
    (if String.eqb k "keyId" then string_of_list_ascii (value p)
     else keyID (parsedHeader p)) /\
  signature (parsedHeader p') =
    (if String.eqb k "signature" then string_of_list_ascii (value p)
     else signature (parsedHeader p)).
Proof.
  unfold setKeyValue. intros H.
  destruct (length (value p) =? 0)%nat; [discriminate|].
  destruct (param_seen (params p) _); [discriminate|].
  simpl in H.
  repeat match type of H with
         | context [String.eqb ?a ?b] => destruct (String.eqb_spec a b)
         | context [intToTime ?v] => destruct (intToTime v) as [tm [nerr|]]
         end;
    try discriminate; inversion H; subst; simpl;
    repeat match goal with
           | E : string_of_list_ascii (key p) = _ |- _ => rewrite E; clear E
           end;
    repeat match goal with
           | |- context [String.eqb ?a ?b] => destruct (String.eqb_spec a b)
           end;
    try (split; reflexivity); try discriminate; congruence.
Qed.

Lemma string_of_list_nonempty (v : list byte) :
  v <> [] -> string_of_list_ascii v <> EmptyString.
Proof. destruct v; [congruence|discriminate]. Qed.

Lemma setKeyValue_requiredSeen (p p' : Parser) :
  requiredSeen p -> setKeyValue p = (p', None) -> requiredSeen p'.
Proof.
  intros [H1 H2] H. pose proof (setKeyValue_required p p' H) as [Ek Es].
  apply setKeyValue_ok in H as (Hv & _ & Hpar & _).
  apply string_of_list_nonempty in Hv.
  unfold requiredSeen. rewrite Hpar, !param_seen_insert, Ek, Es.
  split.
  - destruct (String.eqb (string_of_list_ascii (key p)) "keyId");
      [split; auto|exact H1].
  - destruct (String.eqb (string_of_list_ascii (key p)) "signature");
      [split; auto|exact H2].
Qed.

Lemma quiet_requiredSeen (p p' : Parser) :
  quiet p p' -> requiredSeen p -> requiredSeen p'.
Proof.
  unfold quiet, requiredSeen. intros (Hp & Hk & Hs & _) H.
  rewrite Hp, Hk, Hs. exact H.
Qed.

Lemma signatureLoop_requiredSeen (bs : list byte) (p p' : Parser) :
  requiredSeen p -> signatureLoop p bs = (p', None) -> requiredSeen p'.
Proof.
  intros Hp. rewrite signatureLoop_bytes.
  destruct (signatureBytes p bs) as [p1 [e|]] eqn:Hb; [discriminate|].
  intros H.
  assert (H1 : requiredSeen p1).
  { eapply (signatureBytes_inv requiredSeen); eauto.
    intros q c q' Hq Hs. apply signatureByte_cases in Hs as [Hq' | (_ & f & _ & Hs)].
    - eapply quiet_requiredSeen; eauto.
    - eapply setKeyValue_requiredSeen; [|exact Hs]. exact Hq. }
  apply handleSignatureEOF_cases in H as [Hq | (_ & Hs)].
  - eapply quiet_requiredSeen; eauto.
  - eapply setKeyValue_requiredSeen; eauto.
Qed.

(** X9.  After a successful parse, [VerifySignatureFields] passes exactly
    when both [keyId] and [signature] are in the visited set; it names
    [keyId] first when that one is missing, and [signature] else.  The
    parser is a fresh one, or any parser whose visited set agrees with its
    fields on the two names ([requiredSeen]). *)
Theorem X9_required_fields (p p' : Parser) (h : string) (ph : ParsedHeader) :
  requiredSeen p ->
  ParseAuthorizationHeader p h = (p', (ph, None)) \/
  ParseSignatureHeader p h = (p', (ph, None)) ->
  VerifySignatureFields p' =
  if negb (param_seen (params p') "keyId")
  then Some (mkError "keyId is not set in header")
  else if negb (param_seen (params p') "signature")
       then Some (mkError "signature is not set in header")
       else None.
Proof.
  intros Hp H.
  assert (Hf : exists f, parseSignature (set_flag f p) h = (p', (ph, None))).
  { destruct H as [H | H]; eexists; exact H. }
  clear H. destruct Hf as [f H].
  assert (Hreq : requiredSeen p').
  { revert H. unfold parseSignature.
    destruct (String.length h =? 0)%nat; [discriminate|].
    destruct (signatureLoop (set_flag f p) (list_ascii_of_string h))
      as [p1 [e|]] eqn:Hl; [discriminate|].
    apply signatureLoop_requiredSeen in Hl; [|exact Hp].
    destruct (length (headers (parsedHeader p1)) =? 0)%nat;
      intros [= <- _]; exact Hl. }
  destruct Hreq as [[K1 K2] [S1 S2]]. unfold VerifySignatureFields.
  destruct (param_seen (params p') "keyId").
  - destruct (String.eqb_spec (keyID (parsedHeader p')) EmptyString) as [E | N];
      [exfalso; apply (K1 eq_refl); exact E|].
    destruct (param_seen (params p') "signature").
    + destruct (String.eqb_spec (signature (parsedHeader p')) EmptyString) as [E | N'];
        [exfalso; apply (S1 eq_refl); exact E|reflexivity].
    + destruct (String.eqb_spec (signature (parsedHeader p')) EmptyString) as [E | N'];
        [reflexivity|]. apply S2 in N'. discriminate.
  - destruct (String.eqb_spec (keyID (parsedHeader p')) EmptyString) as [E | N];
      [reflexivity|]. apply K2 in N. discriminate.
Qed.

Lemma NewParser_requiredSeen : requiredSeen NewParser.
Proof.
  split; split; intros H; try discriminate H; exfalso; apply H; reflexivity.
Qed.

Lemma X9_required_fields_witness :
  VerifySignatureFields (fst (ParseSignatureHeader NewParser example_keyId)) =
  Some (mkError "signature is not set in header").
Proof.
  apply (X9_required_fields NewParser
           (fst (ParseSignatureHeader NewParser example_keyId)) example_keyId
           (fst (snd (ParseSignatureHeader NewParser example_keyId)))).
  - exact NewParser_requiredSeen.
  - right. vm_compute. reflexivity.
Defined.

(** ** The keyword *)

Lemma setKeyValue_h_keyword (p p' : Parser) (r : option ParserError) :
  setKeyValue p = (p', r) ->
  h_keyword (parsedHeader p') = h_keyword (parsedHeader p).
Proof.
  unfold setKeyValue, fail. intros H.
  destruct (length (value p) =? 0)%nat; [inversion H; reflexivity|].
  destruct (param_seen (params p) _); [inversion H; reflexivity|].
  simpl in H.
  repeat match type of H with
         | context [String.eqb ?a ?b] => destruct (String.eqb a b)
         | context [intToTime ?v] => destruct (intToTime v) as [tm [nerr|]]
         end;
    inversion H; reflexivity.
Qed.

(** Once the keyword state is left, the keyword stored is [Signature], and
    past it no step changes the keyword. *)
Lemma signatureByte_h_keyword (p p' : Parser) (c : byte) :
  signatureByte p c = (p', None) ->
  (flag p = FKeyword ->
   flag p' = FKeyword \/ h_keyword (parsedHeader p') = "Signature") /\
  (flag p <> FKeyword ->
   flag p' <> FKeyword /\ h_keyword (parsedHeader p') = h_keyword (parsedHeader p)).
Proof.
  unfold signatureByte. destruct (flag p) eqn:Hf;
    unfold parseKeyword, parseKey, parseEqual, parseQuote, parseStringValue,
      parseIntValue, parseDiv, setKeyword, ok, fail; intros H;
    (split; intros Hk; [try discriminate Hk|try congruence]);
    repeat match type of H with
           | context [if ?b then _ else _] => destruct b eqn:?
           end;
    try discriminate;
    try (pose proof (setKeyValue_h_keyword _ _ _ H) as Hh;
         apply setKeyValue_flag in H; cbn [set_flag flag parsedHeader] in H, Hh;
         split; [rewrite H; discriminate|exact Hh]);
    inversion H; subst; clear H;
    try (destruct (enterValue_cases p) as [-> | ->]);
    cbn [set_flag set_key set_value set_keyword set_parsedHeader with_h_keyword
           flag parsedHeader h_keyword];
    try rewrite Hf; auto; split; auto; discriminate.
Qed.

Lemma handleSignatureEOF_h_keyword (p p' : Parser) :
  handleSignatureEOF p = (p', None) ->
  (flag p = FKeyword -> h_keyword (parsedHeader p') = "Signature") /\
  (flag p <> FKeyword -> h_keyword (parsedHeader p') = h_keyword (parsedHeader p)).
Proof.
  unfold handleSignatureEOF. destruct (flag p) eqn:Hf;
    unfold setKeyword, ok, fail; intros H;
    (split; intros Hk; [try discriminate Hk|try congruence]);
    repeat match type of H with
           | context [if ?b then _ else _] => destruct b eqn:?
           end;
    try discriminate;
    try (exact (setKeyValue_h_keyword _ _ _ H));
    inversion H; subst; reflexivity.
Qed.

Lemma default_headers_h_keyword (q : Parser) :
  h_keyword
    (parsedHeader
       (if (length (headers (parsedHeader q)) =? 0)%nat
        then set_parsedHeader
               (with_headers (headers (parsedHeader q) ++ ["(created)"])
                  (parsedHeader q)) q
        else q)) = h_keyword (parsedHeader q).
Proof. destruct (length (headers (parsedHeader q)) =? 0)%nat; reflexivity. Qed.

(** X10.  A successful [ParseAuthorizationHeader] returns the keyword
    [Signature], on any parser; a successful [ParseSignatureHeader] returns
    the keyword the parser held and sets none. *)
Theorem X10_keyword_of_result (p p' : Parser) (h : string) (ph : ParsedHeader) :
  (ParseAuthorizationHeader p h = (p', (ph, None)) -> h_keyword ph = "Signature") /\
  (ParseSignatureHeader p h = (p', (ph, None)) ->
   h_keyword ph = h_keyword (parsedHeader p)).
Proof.
  split; unfold ParseAuthorizationHeader, ParseSignatureHeader, parseSignature;
    (destruct (String.length h =? 0)%nat; [discriminate|]);
    rewrite signatureLoop_bytes.
  - destruct (signatureBytes (set_flag FKeyword p) (list_ascii_of_string h))
      as [p1 [e|]] eqn:Hb; [discriminate|].
    assert (H1 : flag p1 = FKeyword \/ h_keyword (parsedHeader p1) = "Signature").
    { revert Hb.
      apply (signatureBytes_inv
               (fun q => flag q = FKeyword \/ h_keyword (parsedHeader q) = "Signature"));
        [|left; reflexivity].
      intros q c q' Hq Hs. apply signatureByte_h_keyword in Hs as [Hk Hn].
      destruct Hq as [Hq | Hq]; [exact (Hk Hq)|].
      destruct (flag q) eqn:Hfq; try (apply Hk; reflexivity);
        right; rewrite <- Hq; apply Hn; discriminate. }
    destruct (handleSignatureEOF p1) as [p2 [e|]] eqn:He; [discriminate|].
    apply handleSignatureEOF_h_keyword in He as [Hk Hn].
    intros [= _ <-]. rewrite default_headers_h_keyword.
    destruct H1 as [H1 | H1]; [exact (Hk H1)|].
    destruct (flag p1) eqn:Hf1; try (apply Hk; reflexivity);
      rewrite <- H1; apply Hn; discriminate.
  - destruct (signatureBytes (set_flag FParam p) (list_ascii_of_string h))
      as [p1 [e|]] eqn:Hb; [discriminate|].
    assert (H1 : keywordSet (h_keyword (parsedHeader p)) p1).
    { revert Hb. apply (signatureBytes_inv (keywordSet (h_keyword (parsedHeader p))));
        [|split; [discriminate|reflexivity]].
      intros q c q' [Hq1 Hq2] Hs. apply signatureByte_h_keyword in Hs as [_ Hn].
      destruct (Hn Hq1) as [Hn1 Hn2]. split; [exact Hn1|congruence]. }
    destruct H1 as [Hf1 Hh1].
    destruct (handleSignatureEOF p1) as [p2 [e|]] eqn:He; [discriminate|].
    apply handleSignatureEOF_h_keyword in He as [_ Hn].
    intros [= _ <-]. rewrite default_headers_h_keyword, (Hn Hf1). exact Hh1.
Qed.

Lemma X10_keyword_of_result_witness :
  h_keyword (fst (snd (ParseAuthorizationHeader NewParser "Signature"))) = "Signature".
Proof.
  apply (X10_keyword_of_result NewParser
           (fst (ParseAuthorizationHeader NewParser "Signature")) "Signature").
  vm_compute. reflexivity.
Defined.

(** X11.  The [Authorization] grammar is the keyword, a space and the
    [Signature] grammar: on a parser whose keyword buffer is empty,
    [ParseAuthorizationHeader] of ["Signature " ++ h] is
    [ParseSignatureHeader] of [h] on the parser that holds the keyword, for
    every [h] that is not empty. *)
Theorem X11_authorization_is_keyword_then_signature (p : Parser) (h : string) :
  keyword p = [] -> h <> EmptyString ->
  ParseAuthorizationHeader p ("Signature " ++ h) =
  ParseSignatureHeader (afterKeyword p) h.
Proof.
  intros Hk Hne.
  unfold ParseAuthorizationHeader, ParseSignatureHeader, parseSignature.
  rewrite string_app_length_zero by exact Hne.
  destruct (String.length h =? 0)%nat eqn:Hl.
  { apply string_length_zero in Hl. contradiction. }
  rewrite list_ascii_of_string_app.
  assert (Hscan : signatureBytes (set_flag FKeyword p)
                    (list_ascii_of_string "Signature ") =
                  (set_flag FParam (afterKeyword p), None)).
  { destruct p as [ph pd kw k v f ps]. cbn [keyword] in Hk. subst kw.
    vm_compute. reflexivity. }
  rewrite (signatureLoop_app _ _ _ _ Hscan). reflexivity.
Qed.

Lemma X11_authorization_is_keyword_then_signature_witness :
  ParseAuthorizationHeader NewParser ("Signature " ++ example_keyId) =
  ParseSignatureHeader (afterKeyword NewParser) example_keyId.
Proof.
  apply (X11_authorization_is_keyword_then_signature NewParser example_keyId).
  - reflexivity.
  - discriminate.
Defined.

(** ** What a parse leaves in the buffers *)

(** X12.  A successful [ParseSignatureHeader] leaves the key and value
    buffers empty, whatever they held before. *)
Theorem X12_success_empties_buffers (p p' : Parser) (h : string) (ph : ParsedHeader) :
  ParseSignatureHeader p h = (p', (ph, None)) ->
  key p' = [] /\ value p' = [].
Proof.
  unfold ParseSignatureHeader, parseSignature.
  destruct (String.length h =? 0)%nat; [discriminate|].
  destruct (signatureLoop (set_flag FParam p) (list_ascii_of_string h))
    as [q [e|]] eqn:Hq; [discriminate|].
  assert (Hr : restingBuffers (set_flag FParam p)) by exact I.
  destruct (signatureLoop_buffers_empty _ _ _ Hr Hq) as [Hkq Hvq].
  destruct (length (headers (parsedHeader q)) =? 0)%nat;
    intros [= <- _]; auto.
Qed.

Lemma X12_success_empties_buffers_witness :
  key (fst (ParseSignatureHeader NewParser example_keyId)) = [] /\
  value (fst (ParseSignatureHeader NewParser example_keyId)) = [].
Proof.
  apply (X12_success_empties_buffers NewParser _ example_keyId
           (fst (snd (ParseSignatureHeader NewParser example_keyId)))).
  vm_compute. reflexivity.
Defined.

(** X13.  A key buffer that an earlier, failed parse left behind is read
    as the start of the next header: [ParseSignatureHeader] on a parser
    that holds the letters [k0] in its key buffer returns for [h] what it
    returns for [k0 ++ h] once the buffer is emptied. *)
Theorem X13_leftover_key_is_prefix (p : Parser) (k0 : list byte) (h : string) :
  forallb isLetter k0 = true -> h <> EmptyString ->
  ParseSignatureHeader (set_key k0 p) h =
  ParseSignatureHeader (set_key [] p) (string_of_list_ascii k0 ++ h).
Proof.
  intros Hk Hne. unfold ParseSignatureHeader, parseSignature.
  rewrite string_app_length_zero by exact Hne.
  destruct (String.length h =? 0)%nat eqn:Hl.
  { apply string_length_zero in Hl. contradiction. }
  rewrite list_ascii_of_string_app, list_ascii_of_string_of_list_ascii.
  assert (Hscan : signatureBytes (set_flag FParam (set_key [] p)) k0 =
                  (set_flag FParam (set_key k0 p), None)).
  { rewrite <- (app_nil_r k0) at 1.
    rewrite key_letters by (auto; reflexivity). reflexivity. }
  rewrite (signatureLoop_app _ _ _ _ Hscan). reflexivity.
Qed.

Lemma X13_leftover_key_is_prefix_witness :
  ParseSignatureHeader NewParser "key" =
  (set_key (list_ascii_of_string "key") (set_flag FParam NewParser),
   (zeroParsedHeader,
    Some (mkError "unexpected end of header, expected '=' symbol and field value"))) /\
  ParseSignatureHeader
    (set_key (list_ascii_of_string "key") (set_flag FParam NewParser))
    example_rest_of_key =
  ParseSignatureHeader (set_key [] (set_flag FParam NewParser))
    (string_of_list_ascii (list_ascii_of_string "key") ++ example_rest_of_key).
Proof.
  split; [vm_compute; reflexivity|].
  apply (X13_leftover_key_is_prefix (set_flag FParam NewParser)
           (list_ascii_of_string "key") example_rest_of_key).
  - reflexivity.
  - discriminate.
Defined.

(** ** The digest header: what is refused *)

Lemma parseDigest_bytes (p : Parser) (bs : list byte) :
  bs <> [] ->
  snd (ParseDigestHeader p (string_of_list_ascii bs)) =
  match digestLoop (set_flag FAlgorithm p) bs with
  | (_, Some e) => (zeroParsedDigestHeader, Some e)
  | (p', None) => (parsedDigestHeader p', None)
  end.
Proof.
  intros Hne. unfold ParseDigestHeader, parseDigest.
  rewrite string_of_list_length by exact Hne.
  rewrite list_ascii_of_string_of_list_ascii.
  destruct (digestLoop _ _) as [p' [e|]]; reflexivity.
Qed.

(** X14.  A [Digest] header that ends before any [=], made of letters,
    digits and ['-'] only, is refused with "unexpected end of header,
    expected digest value", on any parser. *)
Theorem X14_digest_without_value (p : Parser) (name : list byte) :
  name <> [] -> forallb isAlgorithmByte name = true ->
  snd (ParseDigestHeader p (string_of_list_ascii name)) =
  (zeroParsedDigestHeader,
   Some (mkError "unexpected end of header, expected digest value")).
Proof.
  intros Hne Hn. rewrite parseDigest_bytes by exact Hne.
  rewrite <- (app_nil_r name). rewrite algorithm_bytes by (auto; reflexivity).
  reflexivity.
Qed.

Lemma X14_digest_without_value_witness :
  snd (ParseDigestHeader NewParser "SHA-256") =
  (zeroParsedDigestHeader,
   Some (mkError "unexpected end of header, expected digest value")).
Proof.
  apply (X14_digest_without_value NewParser (list_ascii_of_string "SHA-256")).
  - discriminate.
  - reflexivity.
Defined.

(** X15.  In the name of a [Digest] header, the first byte that is not a
    letter, a digit, ['-'] or [=] ends the parse with "found '<byte>' ...
    unsupported symbol in algorithm", on any parser. *)
Theorem X15_digest_symbol_refused (p : Parser) (name rest : list byte) (c : byte) :
  forallb isAlgorithmByte name = true ->
  isAlgorithmByte c = false -> beq c equal = false ->
  snd (ParseDigestHeader p (string_of_list_ascii (name ++ c :: rest))) =
  (zeroParsedDigestHeader, Some (foundError c "unsupported symbol in algorithm")).
Proof.
  intros Hn Hc He. rewrite parseDigest_bytes by (destruct name; discriminate).
  rewrite algorithm_bytes by (auto; reflexivity).
  cbn [digestLoop]. unfold digestByte. cbn [set_key set_flag flag].
  unfold parseAlgorithm. unfold isAlgorithmByte in Hc. rewrite Hc, He.
  reflexivity.
Qed.

Lemma X15_digest_symbol_refused_witness :
  snd (ParseDigestHeader NewParser "SHA 256=abc") =
  (zeroParsedDigestHeader, Some (foundError space "unsupported symbol in algorithm")).
Proof.
  apply (X15_digest_symbol_refused NewParser (list_ascii_of_string "SHA")
           (list_ascii_of_string "256=abc") space); reflexivity.
Defined.

(** ** The digest header: the case of the name *)

Lemma upper_byte_facts (c : byte) :
  upper_byte (upper_byte c) = upper_byte c /\
  (isAlgorithmByte c = true -> isAlgorithmByte (upper_byte c) = true).
Proof.
  destruct c as [[] [] [] [] [] [] [] []]; vm_compute; split; auto.
Qed.

Lemma ToUpper_idempotent (s : string) : ToUpper (ToUpper s) = ToUpper s.
Proof.
  induction s as [|c s IH]; [reflexivity|]. cbn [ToUpper].
  rewrite IH. now rewrite (proj1 (upper_byte_facts c)).
Qed.

Lemma ToUpper_algorithm_bytes (s : string) :
  forallb isAlgorithmByte (list_ascii_of_string s) = true ->
  forallb isAlgorithmByte (list_ascii_of_string (ToUpper s)) = true.
Proof.
  induction s as [|c s IH]; [reflexivity|]. cbn [ToUpper list_ascii_of_string forallb].
  intros H. apply andb_prop in H as [Hc Hs].
  rewrite (proj2 (upper_byte_facts c) Hc), IH by exact Hs. reflexivity.
Qed.

(** X16.  The name of a [Digest] header is read without regard to case:
    [NAME=v] and the same header with [NAME] in upper case give the same
    result. *)
Theorem X16_digest_name_case (p : Parser) (name v : string) :
  key p = [] -> value p = [] ->
  forallb isAlgorithmByte (list_ascii_of_string name) = true ->
  snd (ParseDigestHeader p (name ++ "=" ++ v)) =
  snd (ParseDigestHeader p (ToUpper name ++ "=" ++ v)).
Proof.
  intros Hk Hv Hn. pose proof (ToUpper_algorithm_bytes name Hn) as Hu.
  destruct v as [|c v].
  - unfold ParseDigestHeader, parseDigest.
    rewrite !string_app_length_zero by discriminate.
    rewrite (digestLoop_name_value p name EmptyString Hk Hv Hn).
    rewrite (digestLoop_name_value p (ToUpper name) EmptyString Hk Hv Hu).
    reflexivity.
  - rewrite !ParseDigestHeader_value by (assumption || discriminate).
    now rewrite ToUpper_idempotent.
Qed.

Lemma X16_digest_name_case_witness :
  snd (ParseDigestHeader NewParser ("sha-256" ++ "=" ++ "abc=")) =
  snd (ParseDigestHeader NewParser (ToUpper "sha-256" ++ "=" ++ "abc=")).
Proof.
  apply (X16_digest_name_case NewParser "sha-256" "abc="); reflexivity.
Defined.

(** ** The digest header: a second parse on the same parser *)

(** One byte of the digest grammar on two parsers that agree on the state
    and the value buffer: the same error or none, and again agreement;
    the key buffers stay equal if they were. *)
Lemma digestByte_agree (p q : Parser) (c : byte) :
  flag p = flag q -> value p = value q -> digFlag (flag p) = true ->
  snd (digestByte p c) = snd (digestByte q c) /\
  flag (fst (digestByte p c)) = flag (fst (digestByte q c)) /\
  value (fst (digestByte p c)) = value (fst (digestByte q c)) /\
  digFlag (flag (fst (digestByte p c))) = true /\
  (flag (fst (digestByte p c)) = FAlgorithm \/ snd (digestByte p c) <> None ->
   flag p = FAlgorithm /\ value (fst (digestByte p c)) = value p) /\
  (key p = key q -> key (fst (digestByte p c)) = key (fst (digestByte q c))).
Proof.
  intros Hf Hv Hd. unfold digestByte. rewrite <- Hf.
  destruct (flag p) eqn:Hfp; try discriminate;
    unfold parseAlgorithm, parseStringRawValue, ok, fail.
  - destruct (isLetter c || isDigit c || beq c min); [|destruct (beq c equal)];
      cbn [fst snd set_key set_flag flag value key];
      rewrite ?Hfp; repeat split; auto; try congruence.
  - cbn [fst snd set_value flag value key]. rewrite Hv, Hfp.
    repeat split; auto; try congruence;
      exfalso; (destruct H as [H | H]; [discriminate H|congruence]).
Qed.

Lemma setDigest_agree (p q : Parser) :
  value p = value q ->
  snd (setDigest p) = snd (setDigest q) /\
  (key p = key q -> snd (setDigest p) = None ->
   parsedDigestHeader (fst (setDigest p)) = parsedDigestHeader (fst (setDigest q))) /\
  (snd (setDigest p) = None ->
   key (fst (setDigest p)) = [] /\ value (fst (setDigest p)) = []) /\
  (snd (setDigest p) <> None -> value (fst (setDigest p)) = []).
Proof.
  intros Hv. unfold setDigest. rewrite <- Hv.
  destruct (length (value p) =? 0)%nat eqn:Hl; cbn [fst snd ok fail].
  - apply length_zero_nil in Hl. repeat split; auto; discriminate.
  - repeat split; auto; try congruence.
    intros Hk _. cbn. rewrite Hk, Hv. reflexivity.
Qed.

(** Two runs of the digest loop from agreeing parsers: the same error; with
    equal key buffers also the same header. *)
Lemma digestLoop_agree (bs : list byte) (p q : Parser) :
  flag p = flag q -> value p = value q -> digFlag (flag p) = true ->
  snd (digestLoop p bs) = snd (digestLoop q bs) /\
  (key p = key q -> snd (digestLoop p bs) = None ->
   parsedDigestHeader (fst (digestLoop p bs)) =
   parsedDigestHeader (fst (digestLoop q bs))).
Proof.
  revert p q. induction bs as [|c bs IH]; intros p q Hf Hv Hd.
  - cbn [digestLoop]. unfold handleDigestEOF. rewrite <- Hf.
    destruct (flag p); try discriminate.
    + split; [reflexivity|discriminate].
    + destruct (setDigest_agree p q Hv) as (Hs & Hh & _).
      split; [exact Hs|exact Hh].
  - cbn [digestLoop].
    destruct (digestByte_agree p q c Hf Hv Hd) as (Hs & Hf' & Hv' & Hd' & _ & Hk').
    destruct (digestByte p c) as [p1 [e|]], (digestByte q c) as [q1 [e'|]];
      cbn [fst snd] in *; try discriminate.
    + split; [exact Hs|discriminate].
    + destruct (IH p1 q1 Hf' Hv' Hd') as [I1 I2].
      split; [exact I1|]. intros Hk. apply I2. apply Hk'. exact Hk.
Qed.

(** What the digest loop leaves in the buffers. *)
Lemma digestLoop_buffers (bs : list byte) (p : Parser) :
  digFlag (flag p) = true -> (flag p = FAlgorithm -> value p = []) ->
  (snd (digestLoop p bs) = None ->
   key (fst (digestLoop p bs)) = [] /\ value (fst (digestLoop p bs)) = []) /\
  (snd (digestLoop p bs) <> None -> value (fst (digestLoop p bs)) = []).
Proof.
  revert p. induction bs as [|c bs IH]; intros p Hd Hv.
  - cbn [digestLoop]. unfold handleDigestEOF.
    destruct (flag p) eqn:Hf; try discriminate.
    + cbn [fst snd fail]. split; [discriminate|]. intros _. apply Hv. reflexivity.
    + destruct (setDigest_agree p p eq_refl) as (_ & _ & H1 & H2). split; assumption.
  - cbn [digestLoop].
    destruct (digestByte_agree p p c eq_refl eq_refl Hd) as (_ & _ & _ & Hd' & Ha & _).
    destruct (digestByte p c) as [p1 [e|]]; cbn [fst snd] in *.
    + split; [discriminate|]. intros _.
      destruct Ha as [Hf Hval]; [right; discriminate|]. rewrite Hval. apply Hv. exact Hf.
    + apply IH; [exact Hd'|].
      intros Hf1. destruct Ha as [Hf Hval]; [left; exact Hf1|].
      rewrite Hval. apply Hv. exact Hf.
Qed.

(** X17.  Unlike the parameter headers, a [Digest] header can be parsed
    again on the same parser: on a parser whose buffers are empty, the
    second [ParseDigestHeader] of a header returns what the first returned,
    the same pair or the same error. *)
Theorem X17_digest_parse_repeats (p : Parser) (h : string) :
  key p = [] -> value p = [] ->
  snd (ParseDigestHeader (fst (ParseDigestHeader p h)) h) =
  snd (ParseDigestHeader p h).
Proof.
  intros Hk Hv. unfold ParseDigestHeader, parseDigest.
  destruct (String.length h =? 0)%nat; [reflexivity|].
  set (bs := list_ascii_of_string h).
  destruct (digestLoop_buffers bs (set_flag FAlgorithm p) eq_refl (fun _ => Hv))
    as [Hok Herr].
  destruct (digestLoop (set_flag FAlgorithm p) bs) as [p1 [e|]] eqn:H1;
    cbn [fst snd] in *.
  - assert (Hv1 : value p1 = []) by (apply Herr; discriminate).
    destruct (digestLoop_agree bs (set_flag FAlgorithm p) (set_flag FAlgorithm p1))
      as [Hs _]; try reflexivity.
    { cbn [set_flag value]. congruence. }
    rewrite H1 in Hs. cbn [snd] in Hs.
    destruct (digestLoop (set_flag FAlgorithm p1) bs) as [p2 [e2|]];
      cbn [snd] in Hs; [|discriminate]. injection Hs as <-. reflexivity.
  - destruct (Hok eq_refl) as [Hk1 Hv1].
    destruct (digestLoop_agree bs (set_flag FAlgorithm p) (set_flag FAlgorithm p1))
      as [Hs Hh]; try reflexivity.
    { cbn [set_flag value]. congruence. }
    rewrite H1 in Hs, Hh. cbn [fst snd] in Hs, Hh.
    destruct (digestLoop (set_flag FAlgorithm p1) bs) as [p2 [e2|]];
      cbn [fst snd] in Hs, Hh; [discriminate|].
    rewrite Hh; [reflexivity| |reflexivity]. cbn [set_flag key]. congruence.
Qed.

Lemma X17_digest_parse_repeats_witness :
  snd (ParseDigestHeader (fst (ParseDigestHeader NewParser "MD5=Sd/dVLAcvNLSq16eXua5uQ=="))
         "MD5=Sd/dVLAcvNLSq16eXua5uQ==") =
  snd (ParseDigestHeader NewParser "MD5=Sd/dVLAcvNLSq16eXua5uQ==").
Proof.
  apply (X17_digest_parse_repeats NewParser "MD5=Sd/dVLAcvNLSq16eXua5uQ=="); reflexivity.
Defined.

(** ** The [headers] parameter *)

Lemma fields_aux_word (w cur rest : list byte) :
  forallb isWordByte w = true ->
  fields_aux cur (w ++ rest) = fields_aux (rev w ++ cur) rest.
Proof.
  revert cur. induction w as [|c w IH]; intros cur Hw; [reflexivity|].
  cbn [forallb] in Hw. apply andb_prop in Hw as [Hc Hw].
  unfold isWordByte in Hc. apply andb_prop in Hc as [Hc _].
  apply andb_prop in Hc as [Hc _]. apply negb_true_iff in Hc.
  cbn [app fields_aux]. rewrite Hc, IH by exact Hw.
  cbn [rev]. rewrite <- app_assoc. reflexivity.
Qed.

Lemma fields_aux_joinWords (ws : list (list byte)) :
  forallb isWord ws = true ->
  fields_aux [] (joinWords ws) = map string_of_list_ascii ws.
Proof.
  induction ws as [|w ws IH]; intros H; [reflexivity|].
  cbn [forallb] in H. apply andb_prop in H as [Hw Hws].
  unfold isWord in Hw. apply andb_prop in Hw as [Hb Hne].
  assert (Hrev : rev w <> []).
  { destruct w; [discriminate|]. cbn [rev]. destruct (rev w); discriminate. }
  cbn [joinWords map]. destruct ws as [|w' ws'].
  - pose proof (fields_aux_word w [] [] Hb) as F. rewrite !app_nil_r in F.
    rewrite F. cbn [fields_aux].
    destruct (rev w) eqn:E; [congruence|]. rewrite <- E, rev_involutive. reflexivity.
  - rewrite fields_aux_word by exact Hb. rewrite app_nil_r.
    cbn [fields_aux]. replace (isAsciiSpace space) with true by reflexivity.
    destruct (rev w) eqn:E; [congruence|]. rewrite <- E, rev_involutive.
    rewrite IH by exact Hws. reflexivity.
Qed.

Lemma joinWords_notQuote (ws : list (list byte)) :
  forallb isWord ws = true -> forallb notQuote (joinWords ws) = true.
Proof.
  induction ws as [|w ws IH]; intros H; [reflexivity|].
  cbn [forallb] in H. apply andb_prop in H as [Hw Hws].
  unfold isWord in Hw. apply andb_prop in Hw as [Hb _].
  assert (Hq : forallb notQuote w = true).
  { clear - Hb. induction w as [|c w IH]; [reflexivity|].
    cbn [forallb] in *. apply andb_prop in Hb as [Hc Hb].
    unfold isWordByte in Hc. apply andb_prop in Hc as [Hc _].
    apply andb_prop in Hc as [_ Hc]. rewrite Hc, IH by exact Hb. reflexivity. }
  cbn [joinWords]. destruct ws as [|w' ws']; [exact Hq|].
  rewrite forallb_app, Hq. cbn [forallb andb].
  replace (notQuote space) with true by reflexivity. apply IH. exact Hws.
Qed.

Lemma joinWords_nonempty (ws : list (list byte)) :
  ws <> [] -> forallb isWord ws = true -> joinWords ws <> [].
Proof.
  destruct ws as [|w ws]; [congruence|]. intros _ H.
  cbn [forallb] in H. apply andb_prop in H as [Hw _].
  unfold isWord in Hw. apply andb_prop in Hw as [_ Hne].
  destruct w as [|c w]; [discriminate|].
  cbn [joinWords]. destruct ws; discriminate.
Qed.

(** The parse of the one parameter [headers="v"]. *)
Lemma parse_headers_param (p : Parser) (v : list byte) :
  forallb notQuote v = true -> v <> [] ->
  key p = [] -> value p = [] -> param_seen (params p) "headers" = false ->
  exists p',
    ParseSignatureHeader p (string_of_list_ascii (stringParam headersKey v)) =
    (p', (withDefaultHeaders (with_headers (fields_aux [] v) (parsedHeader p)), None)) /\
    param_seen (params p') "headers" = true.
Proof.
  intros Hq Hne Hk Hv Hs.
  destruct (signatureLoop_params [(headersKey, v)] (set_flag FParam p))
    as (p' & Hl & Hh & _ & _ & _ & Hp'); try assumption; try reflexivity.
  - discriminate.
  - cbn [forallb]. unfold wellFormed. cbn [fst snd]. rewrite Hq.
    destruct v; [congruence|reflexivity].
  - repeat constructor. intros [].
  - intros k [<- | []]. exact Hs.
  - unfold ParseSignatureHeader, parseSignature.
    rewrite string_of_list_length by apply stringParam_nonempty.
    rewrite list_ascii_of_string_of_list_ascii.
    change (stringParam headersKey v) with (renderParams [(headersKey, v)]).
    rewrite Hl.
    assert (Hh' : parsedHeader p' = with_headers (fields_aux [] v) (parsedHeader p)).
    { rewrite Hh. unfold storeAll, storeParam, Fields. cbn [fold_left fst snd].
      rewrite list_ascii_of_string_of_list_ascii. reflexivity. }
    assert (Hseen : param_seen (params p') "headers" = true).
    { apply (Hp' headersKey). left. left. reflexivity. }
    unfold withDefaultHeaders. rewrite <- Hh'.
    destruct (length (headers (parsedHeader p')) =? 0)%nat;
      eexists; (split; [reflexivity|exact Hseen]).
Qed.

(** X18.  The value of [headers] is split at its spaces: for names of
    ASCII bytes without white space or quote, joined by single spaces, a
    fresh [headers] parameter returns the list of the names in their
    order. *)
Theorem X18_headers_are_split (p : Parser) (ws : list (list byte)) :
  ws <> [] -> forallb isWord ws = true ->
  key p = [] -> value p = [] -> param_seen (params p) "headers" = false ->
  snd (ParseSignatureHeader p
         (string_of_list_ascii (stringParam headersKey (joinWords ws)))) =
  (with_headers (map string_of_list_ascii ws) (parsedHeader p), None).
Proof.
  intros Hne Hw Hk Hv Hs.
  destruct (parse_headers_param p (joinWords ws)) as (p' & E & _); try assumption.
  - apply joinWords_notQuote. exact Hw.
  - apply joinWords_nonempty; assumption.
  - rewrite E. cbn [snd]. rewrite fields_aux_joinWords by exact Hw.
    unfold withDefaultHeaders. cbn [with_headers headers].
    destruct ws; [congruence|reflexivity].
Qed.

Lemma X18_headers_are_split_witness :
  snd (ParseSignatureHeader NewParser
         (string_of_list_ascii (stringParam headersKey (joinWords example_words)))) =
  (with_headers ["(request-target)"; "date"; "digest"] zeroParsedHeader, None).
Proof.
  apply (X18_headers_are_split NewParser example_words); try reflexivity.
  discriminate.
Defined.

Lemma space_notQuote (c : byte) : isAsciiSpace c = true -> notQuote c = true.
Proof.
  destruct c as [[] [] [] [] [] [] [] []]; vm_compute; intros; congruence.
Qed.

Lemma fields_aux_blank (v : list byte) :
  forallb isAsciiSpace v = true -> fields_aux [] v = [].
Proof.
  induction v as [|c v IH]; intros H; [reflexivity|].
  cbn [forallb] in H. apply andb_prop in H as [Hc Hv].
  cbn [fields_aux]. rewrite Hc. apply IH. exact Hv.
Qed.

(** X19.  A [headers] value that holds white space only names no header:
    the parse succeeds, [headers] is in the visited set, and the list
    returned is the default [["(created)"]]. *)
Theorem X19_blank_headers_default (p : Parser) (v : list byte) :
  v <> [] -> forallb isAsciiSpace v = true ->
  key p = [] -> value p = [] -> param_seen (params p) "headers" = false ->
  exists p',
    ParseSignatureHeader p (string_of_list_ascii (stringParam headersKey v)) =
    (p', (with_headers ["(created)"] (parsedHeader p), None)) /\
    param_seen (params p') "headers" = true.
Proof.
  intros Hne Hb Hk Hv Hs.
  destruct (parse_headers_param p v) as (p' & E & Hseen); try assumption.
  - clear - Hb. induction v as [|c v IH]; [reflexivity|].
    cbn [forallb] in *. apply andb_prop in Hb as [Hc Hb].
    rewrite (space_notQuote c Hc), IH by exact Hb. reflexivity.
  - exists p'. split; [|exact Hseen]. rewrite E.
    rewrite fields_aux_blank by exact Hb. reflexivity.
Qed.

Lemma X19_blank_headers_default_witness :
  exists p',
    ParseSignatureHeader NewParser
      (string_of_list_ascii (stringParam headersKey [space; space])) =
    (p', (with_headers ["(created)"] zeroParsedHeader, None)) /\
    param_seen (params p') "headers" = true.
Proof.
  apply (X19_blank_headers_default NewParser [space; space]); try reflexivity.
  discriminate.
Defined.
